(** * Flicket user model: [application/flicket/models/flicket_user.py]

    A shallow embedding of the user/group identity model: the token
    operations ([get_token], [revoke_token], [check_token]), the password
    check, the admin test and the two serialisers ([to_dict],
    [to_collection_dict]).

    Conventions of the embedding.
    - A [datetime] is an integer count of microseconds since 1970-01-01;
      [timedelta(seconds=n)] is [n * 10^6].  Adding the caller's
      [expires_in] to the clock is checked against the range of
      [timedelta] and against the calendar range of [datetime] (years 1 to
      9999) and raises [OverflowError] outside it, as Python does.  The
      clock reading [now] stands for a value of [datetime.utcnow()]; the
      two fixed offsets the module applies to it (60 seconds forward, one
      second back) are taken to stay inside the calendar range.
    - Python text is carried as its UTF-8 byte content (a Rocq [string]),
      so [s.encode('utf-8')] is the byte view of [s].
    - A nullable column is an [option]; an exception is a value of [PyExc]
      threaded through the [Result] monad.
    - The collaborators that live outside the module ([bcrypt.hashpw],
      [url_for], the configured admin group name, the operating system's
      random source) are parameters.
    - [query.paginate] and the [Pagination] it returns belong to
      Flask-SQLAlchemy; they are modelled on a query given as the ordered
      list of its result rows.
    - A persistent object is the row the queries see (the identity map of
      the session): [FlicketUser.store] writes a changed object back to
      its row as the flush before the next query does, stamping
      [date_modified].
    - Where a call raises after it has changed the object,
      [FlicketUser.get_token_run] gives the outcome together with the
      object and the runtime the call leaves; [FlicketUser.get_token] is
      its view of the calls that return. *)

From Stdlib Require Import ZArith NArith List Bool Lia.
From Stdlib.Strings Require Import Ascii String Byte.
From Stdlib Require DecimalZ DecimalPos OrderedTypeEx.
From Stdlib Require Import DecimalString Sorted Permutation.
From stdpp Require Import base option list gmap strings sorting.

Local Open Scope Z_scope.
Local Open Scope string_scope.

(** ** Python values that reach the JSON layer *)

#[warnings="-register-all"]
Inductive PyVal : Type :=
  | VNone : PyVal
  | VBool : bool -> PyVal
  | VInt : Z -> PyVal
  | VStr : string -> PyVal
  | VList : list PyVal -> PyVal
  | VDict : gmap string PyVal -> PyVal.

(** Truth value of an optional string attribute, as in [if self.token]:
    [None] and the empty string are false. *)
Definition truthy (o : option string) : bool :=
  match o with
  | None => false
  | Some s => negb (String.eqb s "")
  end.

(** Truth value of a returned Python value, [bool(v)]. *)
Definition py_bool (v : PyVal) : bool :=
  match v with
  | VNone => false
  | VBool b => b
  | VInt z => negb (Z.eqb z 0)
  | VStr s => negb (String.eqb s "")
  | VList l => negb (Nat.eqb (List.length l) 0)
  | VDict d => negb (Nat.eqb (size d) 0)
  end.

(** ** Exceptions *)

Inductive PyExc : Type :=
  | TypeError        (* ordering comparison with [None] *)
  | AttributeError   (* attribute access on [None] *)
  | ValueError       (* [bcrypt.hashpw] given an invalid salt *)
  | OverflowError.   (* date arithmetic leaving the calendar *)

Inductive Result (A : Type) : Type :=
  | Ok : A -> Result A
  | Raise : PyExc -> Result A.
Arguments Ok {A} _.
Arguments Raise {A} _.

#[global] Instance Result_ret : MRet Result := fun A a => Ok a.
#[global] Instance Result_bind : MBind Result := fun A B k m =>
  match m with
  | Ok a => k a
  | Raise e => Raise e
  end.

(** The call comes back with a value: nothing was raised. *)
Definition returns {A} (m : Result A) : Prop := exists a, m = Ok a.

(** ** Bytes, text and base64 *)

Definition bytes := list byte.

(** [s.encode('utf-8')] and [b.decode('utf-8')] under the convention
    that text is carried as its UTF-8 bytes. *)
Definition encode_utf8 (s : string) : bytes := list_byte_of_string s.
Definition decode_utf8 (b : bytes) : string := string_of_list_byte b.

Definition b64_alphabet : bytes :=
  list_byte_of_string
    "ABCDEFGHIJKLMNOPQRSTUVWXYZabcdefghijklmnopqrstuvwxyz0123456789+/".

Definition b64_pad : byte := "="%byte.

(** The symbol for a six-bit value. *)
Definition b64_char (n : N) : byte := nth (N.to_nat n) b64_alphabet b64_pad.

(** Position of a symbol in the alphabet, when it has one. *)
Fixpoint index_of (c : byte) (l : bytes) (i : N) : option N :=
  match l with
  | [] => None
  | x :: l' => if Byte.eqb c x then Some i else index_of c l' (N.succ i)
  end.
Definition b64_index (c : byte) : option N := index_of c b64_alphabet 0%N.

(** A 24-bit group and its [k]-th six-bit field, [k = 0] the leading one. *)
Definition group24 (a b c : byte) : N :=
  (Byte.to_N a * 65536 + Byte.to_N b * 256 + Byte.to_N c)%N.
Definition sextet (g : N) (k : N) : N :=
  ((g / 2 ^ (6 * (3 - k))) mod 64)%N.

(** [base64.b64encode]: three bytes give four symbols; a last group of
    one or two bytes is zero-filled and closed with [=]. *)
Fixpoint b64encode (bs : bytes) : bytes :=
  match bs with
  | [] => []
  | [a] =>
      let g := group24 a "000"%byte "000"%byte in
      [b64_char (sextet g 0); b64_char (sextet g 1); b64_pad; b64_pad]
  | [a; b] =>
      let g := group24 a b "000"%byte in
      [b64_char (sextet g 0); b64_char (sextet g 1); b64_char (sextet g 2);
       b64_pad]
  | a :: b :: c :: rest =>
      let g := group24 a b c in
      b64_char (sextet g 0) :: b64_char (sextet g 1) ::
      b64_char (sextet g 2) :: b64_char (sextet g 3) :: b64encode rest
  end.

(** ** The operating system's random source

    The source is a stream of bytes; [os.urandom(n)] hands out the next
    [n] of them and advances the stream. *)
Definition Entropy := nat -> byte.

Definition os_urandom (n : nat) (src : Entropy) : bytes * Entropy :=
  (map src (seq 0 n), fun i => src (n + i)%nat).


(** ** Dates

    [datetime] values are microsecond counts; [timedelta(seconds=n)] is a
    number of microseconds. *)
Definition datetime := Z.
Definition timedelta_seconds (n : Z) : Z := n * 1000000.

(** [a > b] and [a < b] where [a] is a nullable [DateTime] column:
    ordering [None] against a [datetime] is a [TypeError]. *)
Definition datetime_gt (a : option datetime) (b : datetime) : Result bool :=
  match a with
  | None => Raise TypeError
  | Some x => Ok (Z.ltb b x)
  end.
Definition datetime_lt (a : option datetime) (b : datetime) : Result bool :=
  match a with
  | None => Raise TypeError
  | Some x => Ok (Z.ltb x b)
  end.

(** The calendar: [datetime.min] is 0001-01-01 00:00:00 and
    [datetime.max] is 9999-12-31 23:59:59.999999. *)
Definition datetime_min : datetime := -62135596800000000.
Definition datetime_max : datetime := 253402300799999999.

(** [timedelta(seconds=n)] for an integer [n]: the normalised number of
    days must lie within 999999999 either way. *)
Definition timedelta (seconds : Z) : Result Z :=
  if Z.leb (-999999999) (seconds / 86400)
     && Z.leb (seconds / 86400) 999999999
  then Ok (timedelta_seconds seconds)
  else Raise OverflowError.

(** [d + delta] on a [datetime]: the sum must lie in the calendar. *)
Definition datetime_add (d : datetime) (delta : Z) : Result datetime :=
  if Z.leb datetime_min (d + delta) && Z.leb (d + delta) datetime_max
  then Ok (d + delta)
  else Raise OverflowError.

(** [d + timedelta(seconds=n)] *)
Definition datetime_after (d : datetime) (seconds : Z) : Result datetime :=
  delta ← timedelta seconds; datetime_add d delta.

(** ** Query helpers: [.first()] and [.count()] on a filtered row list *)
Definition first {A} (rows : list A) : option A := head rows.
Definition count {A} (rows : list A) : Z := Z.of_nat (List.length rows).

#[global] Instance byte_eq_dec : EqDecision byte := Byte.byte_eq_dec.

(** The rows of an entity query come back once per object: a row already
    seen is skipped, the first occurrence stays in place. *)
Fixpoint unique_from {A} `{EqDecision A} (seen l : list A) : list A :=
  match l with
  | [] => []
  | x :: l' =>
      if bool_decide (x ∈ seen) then unique_from seen l'
      else x :: unique_from (x :: seen) l'
  end.
Definition unique_list {A} `{EqDecision A} (l : list A) : list A :=
  unique_from [] l.

(** The class-level constants of the module. *)
Definition user_field_size : gmap string Z :=
  list_to_map
    [("username_min", 4); ("username_max", 24); ("name_min", 4);
     ("name_max", 60); ("email_min", 6); ("email_max", 60);
     ("password_min", 6); ("password_max", 60); ("group_min", 3);
     ("group_max", 64); ("job_title", 64); ("avatar", 64)].

(** ** [PaginatedAPIMixin] *)

(** Interface of the items a paginated query yields: each item carries
    its own [to_dict]. *)
Class HasToDict (A : Type) := item_to_dict : A -> PyVal.

(** What [query.paginate(page, per_page, False)] hands back.  The query
    is the ordered list of its result rows.  With [error_out] false a page
    below 1 is read as page 1 and a negative page size as 20; the items
    are the [per_page] rows after the first [(page - 1) * per_page]; the
    total is the number of rows of the query. *)
Record Pagination (A : Type) := mkPagination {
  pg_page : Z;
  pg_per_page : Z;
  pg_total : Z;
  pg_items : list A
}.
Arguments mkPagination {A} _ _ _ _.
Arguments pg_page {A} _.
Arguments pg_per_page {A} _.
Arguments pg_total {A} _.
Arguments pg_items {A} _.

Definition paginate {A} (query : list A) (page per_page : Z) : Pagination A :=
  let page := if Z.ltb page 1 then 1 else page in
  let per_page := if Z.ltb per_page 0 then 20 else per_page in
  let items :=
    take (Z.to_nat per_page) (drop (Z.to_nat ((page - 1) * per_page)) query) in
  mkPagination page per_page (count query) items.

(** [Pagination.pages]: the ceiling of [total / per_page], 0 for an empty
    page size. *)
Definition pages {A} (r : Pagination A) : Z :=
  if Z.eqb (pg_per_page r) 0 then 0
  else (pg_total r + pg_per_page r - 1) / pg_per_page r.
Definition has_prev {A} (r : Pagination A) : bool := Z.ltb 1 (pg_page r).
Definition has_next {A} (r : Pagination A) : bool := Z.ltb (pg_page r) (pages r).

Module PaginatedAPIMixin.
Section WithRouting.
(** [flask.url_for]: endpoint name and keyword values to a URL. *)
Variable url_for : string -> gmap string PyVal -> string.
Context {A : Type} `{HasToDict A}.

(** The keyword values of the three [url_for] calls: [page] and
    [per_page] next to the caller's extra [kwargs]. *)
Definition link_values (page per_page : Z) (kwargs : gmap string PyVal)
  : gmap string PyVal :=
  <["page" := VInt page]> (<["per_page" := VInt per_page]> kwargs).

Definition to_collection_dict (query : list A) (page per_page : Z)
    (endpoint : string) (kwargs : gmap string PyVal) : PyVal :=
  let resources := paginate query page per_page in
  let data : gmap string PyVal :=
    list_to_map
      [("items", VList (map item_to_dict (pg_items resources)));
       ("_meta", VDict (list_to_map
          [("page", VInt page);
           ("per_page", VInt per_page);
           ("total_pages", VInt (pages resources));
           ("total_items", VInt (pg_total resources))]));
       ("_links", VDict (list_to_map
          [("self", VStr (url_for endpoint (link_values page per_page kwargs)));
           ("next", if has_next resources
                    then VStr (url_for endpoint
                                 (link_values (page + 1) per_page kwargs))
                    else VNone);
           ("prev", if has_prev resources
                    then VStr (url_for endpoint
                                 (link_values (page - 1) per_page kwargs))
                    else VNone)]))] in
  VDict data.
End WithRouting.
End PaginatedAPIMixin.

(** ** [FlicketGroup] *)
Module FlicketGroup.
Record t := mk {
  id : Z;
  group_name : string
}.

(** [order_by=group_name] on the reverse collection: insertion into a
    list kept in non-decreasing name order. *)
Fixpoint insert_by_name (g : t) (gs : list t) : list t :=
  match gs with
  | [] => [g]
  | h :: gs' =>
      if String.leb (group_name g) (group_name h) then g :: h :: gs'
      else h :: insert_by_name g gs'
  end.
Definition order_by_group_name (gs : list t) : list t :=
  foldr insert_by_name [] gs.

#[global] Instance t_eq_dec : EqDecision t.
Proof. solve_decision. Defined.
End FlicketGroup.

(** ** [FlicketUser] *)
Module FlicketUser.
(** The mapped columns.  The constructor fills [username], [name],
    [password], [email], [job_title] and [date_added]; the other
    columns are null until something sets them. *)
Record t := mk {
  id : option Z;
  username : string;
  name : string;
  password : bytes;
  email : string;
  date_added : datetime;
  date_modified : option datetime;
  job_title : option string;
  avatar : option string;
  total_posts : option Z;
  token : option string;
  token_expiration : option datetime
}.

(** [__init__] *)
Definition init (username name email : string) (password : bytes)
    (date_added : datetime) (job_title : option string) : t :=
  mk None username name password email date_added None job_title None None
     None None.

(** Attribute assignment [self.token = v], [self.token_expiration = v]. *)
Definition set_token (v : option string) (u : t) : t :=
  mk (id u) (username u) (name u) (password u) (email u) (date_added u)
     (date_modified u) (job_title u) (avatar u) (total_posts u)
     v (token_expiration u).
Definition set_token_expiration (v : option datetime) (u : t) : t :=
  mk (id u) (username u) (name u) (password u) (email u) (date_added u)
     (date_modified u) (job_title u) (avatar u) (total_posts u)
     (token u) v.

(** The tables the queries read: the user rows, the group rows and the
    [flicket_groups] association rows [(user_id, group_id)]. *)
Record Database := mkDatabase {
  flicket_users : list t;
  flicket_group : list FlicketGroup.t;
  flicket_groups : list (Z * Z)
}.

(** [FlicketUser.query.filter_by(column=value)] *)
Definition filter_by_id (v : option Z) (rows : list t) : list t :=
  List.filter (fun u => bool_decide (id u = v)) rows.
Definition filter_by_username (v : string) (rows : list t) : list t :=
  List.filter (fun u => bool_decide (username u = v)) rows.
Definition filter_by_token (v : string) (rows : list t) : list t :=
  List.filter (fun u => bool_decide (token u = Some v)) rows.

(** [user.flicket_groups]: the rows the association table joins to the
    row, ordered by name, each group object once.  A row without an id
    joins nothing. *)
Definition user_groups (db : Database) (user : t) : list FlicketGroup.t :=
  match id user with
  | None => []
  | Some uid =>
      unique_list
        (FlicketGroup.order_by_group_name
           (flat_map
              (fun link : Z * Z =>
                 if Z.eqb (fst link) uid
                 then List.filter
                        (fun g => Z.eqb (FlicketGroup.id g) (snd link))
                        (flicket_group db)
                 else [])
              (flicket_groups db)))
  end.

(** What the process holds besides the tables: the source of random
    bytes it draws from, and the record of the calls of
    [db.session.add], latest first, each with the object as it stood at
    the call.  (The session itself keeps an object once however often it
    is added; the record says which calls were made, not how many
    objects the session holds.) *)
Record Runtime := mkRuntime {
  entropy : Entropy;
  session : list t
}.
Definition session_add (u : t) (rt : Runtime) : Runtime :=
  mkRuntime (entropy rt) (u :: session rt).

Definition is_authenticated (self : t) : bool := true.
Definition is_active (self : t) : bool := true.
Definition is_anonymous (self : t) : bool := false.

Section WithApp.
(** [app.config['ADMIN_GROUP_NAME']], [bcrypt.hashpw] and
    [flask.url_for]. *)
Variable ADMIN_GROUP_NAME : string.
Variable hashpw : bytes -> bytes -> Result bytes.
Variable url_for : string -> gmap string PyVal -> string.

(** The loop of [is_admin]: [True] at the first group carrying the
    admin name, falling off the end ([None]) otherwise. *)
Fixpoint is_admin_loop (gs : list FlicketGroup.t) : PyVal :=
  match gs with
  | [] => VNone
  | g :: gs' =>
      if String.eqb (FlicketGroup.group_name g) ADMIN_GROUP_NAME
      then VBool true
      else is_admin_loop gs'
  end.

Definition is_admin (db : Database) (self : t) : Result PyVal :=
  match first (filter_by_id (id self) (flicket_users db)) with
  | None => Raise AttributeError
  | Some user => Ok (is_admin_loop (user_groups db user))
  end.

Definition check_password (db : Database) (self : t) (password : string)
  : Result bool :=
  let result := filter_by_username (username self) (flicket_users db) in
  if Z.eqb (count result) 0 then Ok false
  else
    match first result with
    | None => Raise AttributeError
    | Some result =>
        h ← hashpw (encode_utf8 password) (FlicketUser.password result);
        if bool_decide (h ≠ FlicketUser.password result) then Ok false
        else Ok true
    end.

(** A nullable integer or text attribute as a Python value. *)
Definition py_int (o : option Z) : PyVal :=
  match o with
  | None => VNone
  | Some z => VInt z
  end.
Definition py_str (o : option string) : PyVal :=
  match o with
  | None => VNone
  | Some x => VStr x
  end.

Definition to_dict (self : t) : PyVal :=
  let data : gmap string PyVal :=
    list_to_map
      [("id", py_int (id self));
       ("username", VStr (username self));
       ("name", VStr (name self));
       ("email", VStr (email self));
       ("job_title",
        if truthy (job_title self) then py_str (job_title self)
        else VStr "unknown");
       ("total_posts", py_int (total_posts self));
       ("links", VDict (list_to_map
          [("self",
            VStr (url_for "bp_api_v2.get_user"
                    {["id" := py_int (id self)]}))]))] in
  VDict data.

#[export] Instance FlicketUser_to_dict : HasToDict t := to_dict.
End WithApp.

(** [get_token], statement by statement: the stored token when it is
    truthy and good for more than a minute; otherwise 24 bytes are drawn
    and their base64 text is assigned to [token], then
    [now + timedelta(seconds=expires_in)] is computed, which may raise,
    and only then assigned to [token_expiration] and the object handed to
    the session.  The result is the outcome of the call (the returned
    value or the exception) with the object and the runtime as the call
    leaves them. *)
Definition get_token_run (self : t) (expires_in : Z) (now : datetime)
    (rt : Runtime) : Result (option string) * t * Runtime :=
  match (if truthy (token self)
         then datetime_gt (token_expiration self)
                (now + timedelta_seconds 60)
         else Ok false) with
  | Raise e => (Raise e, self, rt)
  | Ok true => (Ok (token self), self, rt)
  | Ok false =>
      let '(fresh, rest) := os_urandom 24 (entropy rt) in
      let self := set_token (Some (decode_utf8 (b64encode fresh))) self in
      let rt := mkRuntime rest (session rt) in
      match datetime_after now expires_in with
      | Raise e => (Raise e, self, rt)
      | Ok expiration =>
          let self := set_token_expiration (Some expiration) self in
          (Ok (token self), self, session_add self rt)
      end
  end.

(** [get_token] as its caller sees it: the returned value with the
    object and the runtime after the call, or the exception. *)
Definition get_token (self : t) (expires_in : Z) (now : datetime)
    (rt : Runtime) : Result (option string * t * Runtime) :=
  match get_token_run self expires_in now rt with
  | (Ok r, self', rt') => Ok (r, self', rt')
  | (Raise e, _, _) => Raise e
  end.

(** The default of the keyword argument [expires_in]. *)
Definition default_expires_in : Z := 36000.

Definition revoke_token (self : t) (now : datetime) : t :=
  set_token_expiration (Some (now - timedelta_seconds 1)) self.

Definition check_token (db : Database) (token : string) (now : datetime)
  : Result (option t) :=
  match first (filter_by_token token (flicket_users db)) with
  | None => Ok None
  | Some user =>
      expired ← datetime_lt (token_expiration user) now;
      if (expired : bool) then Ok None else Ok (Some user)
  end.

(** [get_id]: [str(self.id)], the decimal text of the id, ["None"] for
    an object without one. *)
Definition get_id (self : t) : string :=
  match id self with
  | None => "None"
  | Some z => NilZero.string_of_int (Z.to_int z)
  end.

(** [check_token(None)]: [filter_by(token=None)] selects the rows whose
    token is null. *)
Definition filter_by_token_null (rows : list t) : list t :=
  List.filter (fun u => bool_decide (token u = None)) rows.
Definition check_token_null (db : Database) (now : datetime)
  : Result (option t) :=
  match first (filter_by_token_null (flicket_users db)) with
  | None => Ok None
  | Some user =>
      expired ← datetime_lt (token_expiration user) now;
      if (expired : bool) then Ok None else Ok (Some user)
  end.

#[global] Instance t_eq_dec : EqDecision t.
Proof. solve_decision. Defined.

(** [onupdate=datetime.now] on [date_modified]: what an UPDATE writes
    into the row besides the changed columns. *)
Definition touch (stamp : datetime) (u : t) : t :=
  mk (id u) (username u) (name u) (password u) (email u) (date_added u)
     (Some stamp) (job_title u) (avatar u) (total_posts u)
     (token u) (token_expiration u).

(** A persistent object is the row the queries see.  The flush that
    precedes the next query writes the object in row [i] back when it
    differs from the row, and the UPDATE stamps [date_modified] with the
    time [stamp] of the flush; an unchanged object is not written. *)
Definition store (i : nat) (self : t) (stamp : datetime) (db : Database)
  : Database :=
  match flicket_users db !! i with
  | Some row =>
      if bool_decide (row = self) then db
      else mkDatabase (<[i := touch stamp self]> (flicket_users db))
                      (flicket_group db) (flicket_groups db)
  | None => db
  end.
End FlicketUser.

(** ** Vocabulary of the statements *)

(** Lookup in a returned dictionary. *)
Definition dict_get (v : PyVal) (k : string) : option PyVal :=
  match v with
  | VDict d => d !! k
  | _ => None
  end.

Definition dict_get2 (v : PyVal) (k1 k2 : string) : option PyVal :=
  match dict_get v k1 with
  | Some inner => dict_get inner k2
  | None => None
  end.

(** The token a call mints from a given random source. *)
Definition fresh_token (src : Entropy) : string :=
  decode_utf8 (b64encode (fst (os_urandom 24 src))).

(** The data-model invariant on one row: a token comes with an
    expiration. *)
Definition token_paired (u : FlicketUser.t) : Prop :=
  FlicketUser.token u <> None -> FlicketUser.token_expiration u <> None.

(** The unique index on the [token] column: no two rows carry the same
    non-null token. *)
Definition tokens_unique (rows : list FlicketUser.t) : Prop :=
  NoDup (omap FlicketUser.token rows).

(** Group [g] is associated with row [user]: the association table links
    the id of the row to the id of a stored group. *)
Definition associated (db : FlicketUser.Database) (user : FlicketUser.t)
    (g : FlicketGroup.t) : Prop :=
  exists uid, FlicketUser.id user = Some uid
    /\ In g (FlicketUser.flicket_group db)
    /\ In (uid, FlicketGroup.id g) (FlicketUser.flicket_groups db).

(** What the model asks of the password-hashing primitive: a digest
    used as salt gives the same digest again for the password it was
    made from (the digest carries its salt). *)
Definition resalts (hashpw : bytes -> bytes -> Result bytes) : Prop :=
  forall p s h, hashpw p s = Ok h -> hashpw p h = Ok h.

(** The row a flush leaves for an object [self] that stood for [row]. *)
Definition written (row self : FlicketUser.t) (stamp : datetime)
  : FlicketUser.t :=
  if bool_decide (row = self) then self else FlicketUser.touch stamp self.

(** The condition under which [get_token] mints: no usable token, or an
    expiration at most 60 seconds ahead. *)
Definition mints (self : FlicketUser.t) (now : datetime) : Prop :=
  truthy (FlicketUser.token self) = false \/
  exists e, FlicketUser.token_expiration self = Some e /\
            e <= now + timedelta_seconds 60.

(** The list under [items] of a returned collection. *)
Definition dict_items (v : PyVal) : list PyVal :=
  match dict_get v "items" with
  | Some (VList l) => l
  | _ => []
  end.

(** The keys of a serialised user. *)
Definition user_keys : gset string :=
  list_to_set
    ["id"; "username"; "name"; "email"; "job_title"; "total_posts"; "links"].

(** Name order of two groups, as [order_by=group_name] compares them. *)
Definition name_le (g h : FlicketGroup.t) : Prop :=
  String.leb (FlicketGroup.group_name g) (FlicketGroup.group_name h) = true.

(** The rows the association table joins to a user id, before ordering. *)
Definition joined_groups (db : FlicketUser.Database) (uid : Z)
  : list FlicketGroup.t :=
  flat_map
    (fun link : Z * Z =>
       if Z.eqb (fst link) uid
       then List.filter (fun g => Z.eqb (FlicketGroup.id g) (snd link))
              (FlicketUser.flicket_group db)
       else [])
    (FlicketUser.flicket_groups db).

(** The states an object goes through from a state [u0]: any sequence
    of [get_token] calls, returning or raising, and [revoke_token]
    calls. *)
Inductive evolves (u0 : FlicketUser.t) : FlicketUser.t -> Prop :=
  | evolves_refl : evolves u0 u0
  | evolves_get_token self expires_in now rt outcome self' rt' :
      evolves u0 self ->
      FlicketUser.get_token_run self expires_in now rt
        = (outcome, self', rt') ->
      evolves u0 self'
  | evolves_revoke_token self now :
      evolves u0 self -> evolves u0 (FlicketUser.revoke_token self now).

(** The token column is null or holds a 32-character string. *)
Definition token_shape (u : FlicketUser.t) : Prop :=
  match FlicketUser.token u with
  | None => True
  | Some tok => String.length tok = 32%nat
  end.

(** ** Sample data *)
Module Samples.
Definition t0 : datetime := 1700000000000000.

Definition alice_token : string := "dG9rZW4tb2YtYWxpY2UtMDAwMDAwMDAw".

Definition alice : FlicketUser.t :=
  FlicketUser.mk (Some 1) "alice" "Alice Liddell" (encode_utf8 "wonderland")
    "alice@example.org" t0 None (Some "Engineer") None (Some 3)
    (Some alice_token) (Some (t0 + timedelta_seconds 600)).

(** A user who left the job title field empty and holds no token. *)
Definition bob : FlicketUser.t :=
  FlicketUser.mk (Some 2) "bobby" "Bob Builder" (encode_utf8 "canwefixit")
    "bob@example.org" t0 None (Some "") None (Some 0) None None.

(** A row that breaks the invariant: a token without expiration. *)
Definition mallory : FlicketUser.t :=
  FlicketUser.mk (Some 3) "mallory" "Mallory M." (encode_utf8 "letmein")
    "mallory@example.org" t0 None None None (Some 0) (Some "stray") None.

(** A user as the constructor leaves it. *)
Definition carol : FlicketUser.t :=
  FlicketUser.init "carol" "Carol C." "carol@example.org"
    (encode_utf8 "s3cret") t0 None.

Definition dave : FlicketUser.t :=
  FlicketUser.mk (Some 4) "dave" "Dave D." (encode_utf8 "hunter2")
    "dave@example.org" t0 None None None (Some 0) None None.
Definition erin : FlicketUser.t :=
  FlicketUser.mk (Some 5) "erin" "Erin E." (encode_utf8 "correct horse")
    "erin@example.org" t0 None (Some "Manager") None (Some 7) None None.
Definition frank : FlicketUser.t :=
  FlicketUser.mk (Some 6) "frank" "Frank F." (encode_utf8 "battery staple")
    "frank@example.org" t0 None None None (Some 1) None None.

(** A user holding the token [stuck_entropy] yields, good for ten hours. *)
Definition grace : FlicketUser.t :=
  FlicketUser.mk (Some 7) "grace" "Grace G." (encode_utf8 "compiler")
    "grace@example.org" t0 None None None (Some 0)
    (Some "AAAAAAAAAAAAAAAAAAAAAAAAAAAAAAAA")
    (Some (t0 + timedelta_seconds 36000)).

Definition admin_name : string := "flicket_admin".
Definition admins : FlicketGroup.t := FlicketGroup.mk 10 admin_name.
Definition staff : FlicketGroup.t := FlicketGroup.mk 11 "staff".
Definition guests : FlicketGroup.t := FlicketGroup.mk 12 "guests".

(** alice: staff and admin; bob: staff and guests; dave: no group;
    erin: admin only; frank: staff only. *)
Definition db : FlicketUser.Database :=
  FlicketUser.mkDatabase [alice; bob; dave; erin; frank]
    [admins; staff; guests]
    [(1, 11); (1, 10); (2, 11); (2, 12); (5, 10); (6, 11)].

(** Twenty-five rows, ids 1 to 25. *)
Definition member (n : nat) : FlicketUser.t :=
  FlicketUser.mk (Some (Z.of_nat n)) "member" "A Member" (encode_utf8 "pw")
    "member@example.org" t0 None None None (Some 0) None None.
Definition query25 : list FlicketUser.t := map member (seq 1 25).

(** A random source that keeps returning the same byte. *)
Definition stuck_entropy : Entropy := fun _ => "000"%byte.
Definition rt : FlicketUser.Runtime := FlicketUser.mkRuntime stuck_entropy [].

(** A hashing primitive that rejects every salt. *)
Definition failing_hashpw (p s : bytes) : Result bytes := Raise ValueError.

(** A hashing primitive with the input limit of bcrypt: a salt has at
    least 29 bytes, the digest opens with the first 29 bytes of the salt,
    and only the first 72 bytes of the password count. *)
Definition bcrypt_like_hashpw (p s : bytes) : Result bytes :=
  if Nat.ltb (length s) 29 then Raise ValueError
  else Ok (take 29 s ++ take 72 p)%list.

Definition salt29 : bytes := encode_utf8 "$2b$12$abcdefghijklmnopqrstuv".

(** A password of 72 bytes, and the row of a user created with it. *)
Definition long_password : string :=
  "0123456789abcdefghijklmnopqrstuvwxyzABCDEFGHIJKLMNOPQRSTUVWXYZ0123456789".

Definition heidi : FlicketUser.t :=
  FlicketUser.mk (Some 8) "heidi" "Heidi H."
    (salt29 ++ encode_utf8 long_password)%list
    "heidi@example.org" t0 None None None (Some 0) None None.

Definition db_heidi : FlicketUser.Database :=
  FlicketUser.mkDatabase [heidi] [] [].

(** An [expires_in] of 10^12 seconds, some 31700 years. *)
Definition far_future : Z := 1000000000000.

Definition plain_url_for (endpoint : string) (values : gmap string PyVal)
  : string := endpoint.
End Samples.

(** * Properties *)

(** ** Base64 *)

Example b64_three_bytes : decode_utf8 (b64encode (encode_utf8 "Man")) = "TWFu".
Proof. reflexivity. Qed.
Example b64_two_bytes : decode_utf8 (b64encode (encode_utf8 "Ma")) = "TWE=".
Proof. reflexivity. Qed.
Example b64_one_byte : decode_utf8 (b64encode (encode_utf8 "M")) = "TQ==".
Proof. reflexivity. Qed.

Lemma below_64 (n : N) : (n < 64)%N -> In n (map N.of_nat (seq 0 64)).
Proof.
  intros Hn. apply in_map_iff. exists (N.to_nat n). split; [lia|].
  apply in_seq. lia.
Qed.

Lemma b64_index_char (n : N) : (n < 64)%N -> b64_index (b64_char n) = Some n.
Proof.
  intros Hn.
  assert (Hall : forallb
            (fun k => bool_decide (b64_index (b64_char k) = Some k))
            (map N.of_nat (seq 0 64)) = true) by (vm_compute; reflexivity).
  rewrite forallb_forall in Hall.
  eapply bool_decide_eq_true_1, Hall, below_64, Hn.
Qed.

Lemma b64_char_inj (n m : N) :
  (n < 64)%N -> (m < 64)%N -> b64_char n = b64_char m -> n = m.
Proof.
  intros Hn Hm Heq.
  assert (Some n = Some m) as [= ->]; [|reflexivity].
  rewrite <- (b64_index_char n Hn), <- (b64_index_char m Hm). now rewrite Heq.
Qed.

Lemma b64_char_not_pad (n : N) : (n < 64)%N -> b64_char n <> b64_pad.
Proof.
  intros Hn Heq. pose proof (b64_index_char n Hn) as Hi.
  rewrite Heq in Hi. vm_compute in Hi. discriminate.
Qed.

Lemma sextet_lt (g k : N) : (sextet g k < 64)%N.
Proof. unfold sextet. apply N.mod_lt. discriminate. Qed.

Lemma group24_lt (a b c : byte) : (group24 a b c < 16777216)%N.
Proof.
  unfold group24.
  pose proof (Byte.to_N_bounded a). pose proof (Byte.to_N_bounded b).
  pose proof (Byte.to_N_bounded c). lia.
Qed.

Lemma to_N_inj (a b : byte) : Byte.to_N a = Byte.to_N b -> a = b.
Proof.
  intros Heq. assert (Some a = Some b) as [= ->]; [|reflexivity].
  rewrite <- (Byte.of_to_N a), <- (Byte.of_to_N b). now rewrite Heq.
Qed.

Lemma group24_inj (a b c a' b' c' : byte) :
  group24 a b c = group24 a' b' c' -> a = a' /\ b = b' /\ c = c'.
Proof.
  unfold group24. intros Heq.
  pose proof (Byte.to_N_bounded a). pose proof (Byte.to_N_bounded b).
  pose proof (Byte.to_N_bounded c). pose proof (Byte.to_N_bounded a').
  pose proof (Byte.to_N_bounded b'). pose proof (Byte.to_N_bounded c').
  repeat split; apply to_N_inj; lia.
Qed.

(** A 24-bit group is the concatenation of its four six-bit fields. *)
Lemma sextets_split (g : N) :
  (g < 16777216)%N ->
  g = (sextet g 0 * 262144 + sextet g 1 * 4096 + sextet g 2 * 64 + sextet g 3)%N.
Proof.
  intros Hg. unfold sextet.
  change (2 ^ (6 * (3 - 0)))%N with (64 * 64 * 64)%N.
  change (2 ^ (6 * (3 - 1)))%N with (64 * 64)%N.
  change (2 ^ (6 * (3 - 2)))%N with 64%N.
  change (2 ^ (6 * (3 - 3)))%N with 1%N.
  rewrite N.div_1_r, <- !N.Div0.div_div.
  pose proof (N.div_mod g 64) as H3.
  pose proof (N.div_mod (g / 64) 64) as H2.
  pose proof (N.div_mod (g / 64 / 64) 64) as H1.
  assert (H0 : (g / 64 / 64 / 64 < 64)%N).
  { rewrite !N.Div0.div_div. apply N.Div0.div_lt_upper_bound. exact Hg. }
  rewrite (N.mod_small _ _ H0). lia.
Qed.

Lemma sextets_inj (g g' : N) :
  (g < 16777216)%N -> (g' < 16777216)%N ->
  (forall k, In k [0; 1; 2; 3]%N -> sextet g k = sextet g' k) -> g = g'.
Proof.
  intros Hg Hg' Hk.
  rewrite (sextets_split g Hg), (sextets_split g' Hg').
  rewrite !Hk by (simpl; tauto). reflexivity.
Qed.

Lemma sextet_3_of_pair (a b : byte) : sextet (group24 a b "000"%byte) 3 = 0%N.
Proof.
  unfold sextet, group24. change (2 ^ (6 * (3 - 3)))%N with 1%N.
  rewrite N.div_1_r. change (Byte.to_N "000"%byte) with 0%N.
  replace (Byte.to_N a * 65536 + Byte.to_N b * 256 + 0)%N
    with ((Byte.to_N a * 1024 + Byte.to_N b * 4) * 64)%N by lia.
  apply N.Div0.mod_mul.
Qed.

Lemma sextet_2_of_single (a : byte) :
  sextet (group24 a "000"%byte "000"%byte) 2 = 0%N.
Proof.
  unfold sextet, group24. change (2 ^ (6 * (3 - 2)))%N with 64%N.
  change (Byte.to_N "000"%byte) with 0%N.
  replace (Byte.to_N a * 65536 + 0 * 256 + 0)%N
    with (Byte.to_N a * 1024 * 64)%N by lia.
  rewrite N.div_mul by discriminate.
  replace (Byte.to_N a * 1024)%N with (Byte.to_N a * 16 * 64)%N by lia.
  apply N.Div0.mod_mul.
Qed.

(** Lists taken three elements at a time. *)
Lemma list_ind_by_3 {A} (P : list A -> Prop) :
  P [] -> (forall a, P [a]) -> (forall a b, P [a; b]) ->
  (forall a b c l, P l -> P (a :: b :: c :: l)) ->
  forall l, P l.
Proof.
  intros H0 H1 H2 H3.
  assert (Hall : forall l, P l /\ (forall a, P (a :: l))
                           /\ (forall a b, P (a :: b :: l))).
  { induction l as [|x l (IHa & IHb & IHc)]; [by auto|].
    repeat split; auto. }
  intros l. apply Hall.
Qed.

Ltac same_sextet :=
  apply b64_char_inj; [apply sextet_lt | apply sextet_lt | assumption].

(** [b64encode] is injective on inputs of one length. *)
Lemma b64encode_inj (bs bs' : bytes) :
  length bs = length bs' -> b64encode bs = b64encode bs' -> bs = bs'.
Proof.
  revert bs'. induction bs as [|a|a b|a b c l IH] using list_ind_by_3;
    intros bs' Hlen Henc.
  - destruct bs'; [reflexivity | discriminate].
  - destruct bs' as [|a' [|]]; try discriminate.
    simpl in Henc. injection Henc as E0 E1.
    destruct (group24_inj a "000" "000" a' "000" "000") as (-> & _);
      [|reflexivity].
    apply sextets_inj; try apply group24_lt.
    intros k [<-|[<-|[<-|[<-|[]]]]]; [same_sextet | same_sextet | |].
    + now rewrite !sextet_2_of_single.
    + now rewrite !sextet_3_of_pair.
  - destruct bs' as [|a' [|b' [|]]]; try discriminate.
    simpl in Henc. injection Henc as E0 E1 E2.
    destruct (group24_inj a b "000" a' b' "000") as (-> & -> & _);
      [|reflexivity].
    apply sextets_inj; try apply group24_lt.
    intros k [<-|[<-|[<-|[<-|[]]]]];
      [same_sextet | same_sextet | same_sextet |].
    now rewrite !sextet_3_of_pair.
  - destruct bs' as [|a' [|b' [|c' l']]]; try discriminate.
    simpl in Henc. injection Henc as E0 E1 E2 E3 Erest.
    destruct (group24_inj a b c a' b' c') as (-> & -> & ->).
    { apply sextets_inj; try apply group24_lt.
      intros k [<-|[<-|[<-|[<-|[]]]]]; same_sextet. }
    f_equal. f_equal. f_equal. apply IH; [|assumption].
    simpl in Hlen. lia.
Qed.

(** ** Queries by token *)

Lemma first_filter_by_token_Some (rows : list FlicketUser.t) tok u :
  first (FlicketUser.filter_by_token tok rows) = Some u ->
  In u rows /\ FlicketUser.token u = Some tok.
Proof.
  unfold first, FlicketUser.filter_by_token. intros Hhd.
  assert (Hin : In u (List.filter
            (fun u => bool_decide (FlicketUser.token u = Some tok)) rows)).
  { destruct (List.filter _ rows); simplify_eq/=. now left. }
  apply filter_In in Hin as [Hin Htok].
  split; [assumption | now apply bool_decide_eq_true_1 in Htok].
Qed.

Lemma first_filter_by_token_None (rows : list FlicketUser.t) tok :
  (forall u, In u rows -> FlicketUser.token u <> Some tok) ->
  first (FlicketUser.filter_by_token tok rows) = None.
Proof.
  intros Hno.
  destruct (first (FlicketUser.filter_by_token tok rows)) as [u|] eqn:Hhd;
    [|reflexivity].
  apply first_filter_by_token_Some in Hhd as [Hin Htok].
  now destruct (Hno u Hin).
Qed.

(** Under the unique index the first row a token selects is the row
    that holds it. *)
Lemma first_filter_by_token_unique (rows : list FlicketUser.t) i u tok :
  tokens_unique rows -> rows !! i = Some u -> FlicketUser.token u = Some tok ->
  first (FlicketUser.filter_by_token tok rows) = Some u.
Proof.
  unfold tokens_unique, first, FlicketUser.filter_by_token.
  revert i. induction rows as [|r rows IH]; intros i Hnd Hi Htok.
  - discriminate.
  - destruct i as [|i]; simpl in Hi.
    + injection Hi as ->. simpl.
      rewrite bool_decide_eq_true_2 by assumption. reflexivity.
    + simpl. destruct (bool_decide_reflect (FlicketUser.token r = Some tok))
        as [Hr|Hr].
      * exfalso. simpl in Hnd. rewrite Hr in Hnd. simpl in Hnd.
        apply NoDup_cons in Hnd as [Hnotin _]. apply Hnotin.
        apply list_elem_of_omap. exists u. split; [|assumption].
        apply list_elem_of_lookup. now exists i.
      * apply (IH i); try assumption.
        simpl in Hnd. destruct (FlicketUser.token r); [|assumption].
        now apply NoDup_cons in Hnd as [_ Hnd].
Qed.

Lemma omap_token_store (rows : list FlicketUser.t) i u u' :
  rows !! i = Some u -> FlicketUser.token u' = FlicketUser.token u ->
  omap FlicketUser.token (<[i := u']> rows) = omap FlicketUser.token rows.
Proof.
  intros Hi Htok. revert i Hi.
  induction rows as [|r rows IH]; intros [|i] Hi; try discriminate.
  - injection Hi as ->. cbn. now rewrite Htok.
  - cbn. destruct (FlicketUser.token r); [f_equal|]; apply (IH i Hi).
Qed.

Lemma tokens_unique_store (rows : list FlicketUser.t) i u u' :
  tokens_unique rows -> rows !! i = Some u ->
  FlicketUser.token u' = FlicketUser.token u ->
  tokens_unique (<[i := u']> rows).
Proof.
  unfold tokens_unique. intros Hnd Hi Htok.
  now rewrite (omap_token_store _ _ _ _ Hi Htok).
Qed.

(** The token check, case by case on the first row the token selects. *)
Lemma check_token_found db tok now user e :
  first (FlicketUser.filter_by_token tok (FlicketUser.flicket_users db))
    = Some user ->
  FlicketUser.token_expiration user = Some e ->
  FlicketUser.check_token db tok now
    = Ok (if Z.ltb e now then None else Some user).
Proof.
  intros Hfirst He. unfold FlicketUser.check_token.
  rewrite Hfirst, He. simpl. now destruct (Z.ltb e now).
Qed.

Lemma check_token_not_found db tok now :
  first (FlicketUser.filter_by_token tok (FlicketUser.flicket_users db))
    = None ->
  FlicketUser.check_token db tok now = Ok None.
Proof. intros Hfirst. unfold FlicketUser.check_token. now rewrite Hfirst. Qed.

Lemma check_token_null_expiration db tok now user :
  first (FlicketUser.filter_by_token tok (FlicketUser.flicket_users db))
    = Some user ->
  FlicketUser.token_expiration user = None ->
  FlicketUser.check_token db tok now = Raise TypeError.
Proof.
  intros Hfirst He. unfold FlicketUser.check_token. now rewrite Hfirst, He.
Qed.

(** C1, as amended: with the unique index on tokens, [check_token t]
    returns the owning user exactly when a row holds [t] and the current
    time is not after its expiration ([now <= token_expiration]: the
    expiration instant itself still validates); once [now] is past the
    expiration, and for a token no row holds, the result is [None] and
    nothing is raised. *)
Theorem check_token_valid_through_expiration db tok now :
  tokens_unique (FlicketUser.flicket_users db) ->
  (forall u,
     FlicketUser.check_token db tok now = Ok (Some u) <->
     In u (FlicketUser.flicket_users db) /\ FlicketUser.token u = Some tok /\
     exists e, FlicketUser.token_expiration u = Some e /\ now <= e) /\
  (forall u e,
     In u (FlicketUser.flicket_users db) -> FlicketUser.token u = Some tok ->
     FlicketUser.token_expiration u = Some e -> e < now ->
     FlicketUser.check_token db tok now = Ok None) /\
  ((forall u, In u (FlicketUser.flicket_users db) ->
              FlicketUser.token u <> Some tok) ->
   FlicketUser.check_token db tok now = Ok None).
Proof.
  intros Huniq.
  assert (Hrow : forall u, In u (FlicketUser.flicket_users db) ->
            FlicketUser.token u = Some tok ->
            first (FlicketUser.filter_by_token tok (FlicketUser.flicket_users db))
              = Some u).
  { intros u Hin Htok. apply list_elem_of_In, list_elem_of_lookup in Hin as [i Hi].
    now apply (first_filter_by_token_unique _ i). }
  split; [|split].
  - intros u. split.
    + intros Hok.
      destruct (first (FlicketUser.filter_by_token tok
                         (FlicketUser.flicket_users db))) as [user|] eqn:Hfirst.
      * destruct (FlicketUser.token_expiration user) as [e|] eqn:He.
        -- rewrite (check_token_found _ _ _ _ _ Hfirst He) in Hok.
           destruct (Z.ltb_spec e now); [discriminate|].
           injection Hok as <-.
           apply first_filter_by_token_Some in Hfirst as [Hin Htok].
           repeat split; try assumption. exists e. now split.
        -- rewrite (check_token_null_expiration _ _ _ _ Hfirst He) in Hok.
           discriminate.
      * rewrite (check_token_not_found _ _ _ Hfirst) in Hok. discriminate.
    + intros (Hin & Htok & e & He & Hle).
      rewrite (check_token_found _ _ _ _ _ (Hrow u Hin Htok) He).
      destruct (Z.ltb_spec e now); [lia | reflexivity].
  - intros u e Hin Htok He Hlt.
    rewrite (check_token_found _ _ _ _ _ (Hrow u Hin Htok) He).
    destruct (Z.ltb_spec e now); [reflexivity | lia].
  - intros Hno. apply check_token_not_found, first_filter_by_token_None, Hno.
Qed.

Lemma sample_tokens_unique :
  tokens_unique (FlicketUser.flicket_users Samples.db).
Proof. apply (bool_decide_unpack _). vm_compute. exact I. Qed.

Lemma check_token_valid_through_expiration_witness :
  tokens_unique (FlicketUser.flicket_users Samples.db) /\
  FlicketUser.check_token Samples.db Samples.alice_token Samples.t0
    = Ok (Some Samples.alice).
Proof.
  split; [exact sample_tokens_unique|].
  apply (check_token_valid_through_expiration Samples.db Samples.alice_token
           Samples.t0 sample_tokens_unique).
  split; [left; reflexivity|]. split; [reflexivity|].
  exists (Samples.t0 + timedelta_seconds 600). split; [reflexivity|].
  unfold timedelta_seconds. lia.
Defined.

(** C1 as stated fails at the expiration instant: with [now] equal to
    the stored [token_expiration] the claim asks for [None], the code
    still returns the user. *)
Lemma check_token_at_expiration_instant :
  let now := Samples.t0 + timedelta_seconds 600 in
  In Samples.alice (FlicketUser.flicket_users Samples.db) /\
  FlicketUser.token Samples.alice = Some Samples.alice_token /\
  FlicketUser.token_expiration Samples.alice = Some now /\
  now >= now /\
  FlicketUser.check_token Samples.db Samples.alice_token now
    = Ok (Some Samples.alice) /\
  FlicketUser.check_token Samples.db Samples.alice_token now <> Ok None.
Proof.
  cbv zeta. repeat split; try reflexivity; try (left; reflexivity).
  - lia.
  - vm_compute. discriminate.
Qed.

(** ** Minting and keeping tokens *)

Lemma urandom_length n src : length (fst (os_urandom n src)) = n.
Proof. unfold os_urandom. simpl. now rewrite length_map, length_seq. Qed.

Lemma urandom_advances n src i : snd (os_urandom n src) i = src (n + i)%nat.
Proof. reflexivity. Qed.

(** A minted token has the 32 characters of the [token] column, so it is
    true in a condition. *)
Lemma fresh_token_length src : String.length (fresh_token src) = 32%nat.
Proof. reflexivity. Qed.

Lemma fresh_token_truthy src : truthy (Some (fresh_token src)) = true.
Proof. reflexivity. Qed.

Lemma decode_utf8_inj (a b : bytes) : decode_utf8 a = decode_utf8 b -> a = b.
Proof.
  unfold decode_utf8. intros Heq.
  rewrite <- (list_byte_of_string_of_list_byte a),
          <- (list_byte_of_string_of_list_byte b). now rewrite Heq.
Qed.

(** A minted token repeats an earlier one only if the random source
    repeats the bytes behind it. *)
Lemma fresh_token_inj src (old : bytes) :
  length old = 24%nat ->
  fresh_token src = decode_utf8 (b64encode old) <->
  fst (os_urandom 24 src) = old.
Proof.
  intros Hlen. unfold fresh_token. split.
  - intros Heq. apply b64encode_inj.
    + now rewrite urandom_length.
    + now apply decode_utf8_inj.
  - now intros ->.
Qed.

(** *** Date arithmetic *)

Lemma timedelta_Ok seconds delta :
  timedelta seconds = Ok delta ->
  delta = seconds * 1000000 /\
  -999999999 <= seconds / 86400 <= 999999999.
Proof.
  unfold timedelta, timedelta_seconds.
  destruct (Z.leb_spec (-999999999) (seconds / 86400));
    destruct (Z.leb_spec (seconds / 86400) 999999999);
    simpl; intros [= <-]; lia.
Qed.

Lemma datetime_after_Ok now seconds e :
  datetime_after now seconds = Ok e <->
  e = now + seconds * 1000000 /\
  -999999999 <= seconds / 86400 <= 999999999 /\
  datetime_min <= e <= datetime_max.
Proof.
  unfold datetime_after, timedelta, datetime_add, timedelta_seconds.
  destruct (Z.leb_spec (-999999999) (seconds / 86400));
    destruct (Z.leb_spec (seconds / 86400) 999999999); simpl;
    try (split; [discriminate | lia]).
  destruct (Z.leb_spec datetime_min (now + seconds * 1000000));
    destruct (Z.leb_spec (now + seconds * 1000000) datetime_max); simpl;
    try (split; [discriminate | lia]).
  split; [intros [= <-]; lia | intros (-> & _); reflexivity].
Qed.

(** Date arithmetic raises nothing but [OverflowError]. *)
Lemma datetime_after_Raise now seconds ex :
  datetime_after now seconds = Raise ex -> ex = OverflowError.
Proof.
  unfold datetime_after, timedelta, datetime_add.
  destruct (_ && _); simpl; [|now intros [= <-]].
  destruct (_ && _); simpl; [discriminate | now intros [= <-]].
Qed.

Lemma datetime_after_cases now seconds :
  (exists e, datetime_after now seconds = Ok e) \/
  datetime_after now seconds = Raise OverflowError.
Proof.
  destruct (datetime_after now seconds) as [e|ex] eqn:Hadd.
  - left. now exists e.
  - right. now rewrite (datetime_after_Raise _ _ _ Hadd).
Qed.

(** From the sample time, 251702300799 seconds is the longest lifetime
    that stays inside year 9999. *)
Example datetime_after_last_second :
  datetime_after Samples.t0 251702300799 = Ok 253402300799000000 /\
  datetime_after Samples.t0 251702300800 = Raise OverflowError /\
  datetime_after Samples.t0 (-1000000000000) = Raise OverflowError.
Proof. repeat split. Qed.

(** *** The paths of [get_token] *)

Lemma keep_test_mints self now :
  mints self now ->
  (if truthy (FlicketUser.token self)
   then datetime_gt (FlicketUser.token_expiration self)
          (now + timedelta_seconds 60)
   else Ok false) = Ok false.
Proof.
  intros [->|(e & -> & Hle)]; [reflexivity|].
  destruct (truthy _); [|reflexivity]. simpl.
  destruct (Z.ltb_spec (now + timedelta_seconds 60) e); [lia | reflexivity].
Qed.

Lemma get_token_run_keep self expires_in now rt e :
  truthy (FlicketUser.token self) = true ->
  FlicketUser.token_expiration self = Some e ->
  now + timedelta_seconds 60 < e ->
  FlicketUser.get_token_run self expires_in now rt
    = (Ok (FlicketUser.token self), self, rt).
Proof.
  intros Htok He Hlt. unfold FlicketUser.get_token_run.
  rewrite Htok, He. simpl.
  destruct (Z.ltb_spec (now + timedelta_seconds 60) e); [reflexivity | lia].
Qed.

Lemma get_token_run_type_error self expires_in now rt :
  truthy (FlicketUser.token self) = true ->
  FlicketUser.token_expiration self = None ->
  FlicketUser.get_token_run self expires_in now rt = (Raise TypeError, self, rt).
Proof.
  intros Htok He. unfold FlicketUser.get_token_run. now rewrite Htok, He.
Qed.

Lemma get_token_run_mint self expires_in now rt e :
  mints self now ->
  datetime_after now expires_in = Ok e ->
  let self' :=
    FlicketUser.set_token_expiration (Some e)
      (FlicketUser.set_token (Some (fresh_token (FlicketUser.entropy rt)))
         self) in
  FlicketUser.get_token_run self expires_in now rt
    = (Ok (Some (fresh_token (FlicketUser.entropy rt))), self',
       FlicketUser.mkRuntime
         (snd (os_urandom 24 (FlicketUser.entropy rt)))
         (self' :: FlicketUser.session rt)).
Proof.
  intros Hm Hadd. unfold FlicketUser.get_token_run.
  rewrite (keep_test_mints _ _ Hm). cbv zeta.
  change (let '(fresh, rest) := os_urandom 24 (FlicketUser.entropy rt) in _)
    with (match datetime_after now expires_in with
          | Ok expiration =>
              (Ok (Some (fresh_token (FlicketUser.entropy rt))),
               FlicketUser.set_token_expiration (Some expiration)
                 (FlicketUser.set_token
                    (Some (fresh_token (FlicketUser.entropy rt))) self),
               FlicketUser.mkRuntime
                 (snd (os_urandom 24 (FlicketUser.entropy rt)))
                 (FlicketUser.set_token_expiration (Some expiration)
                    (FlicketUser.set_token
                       (Some (fresh_token (FlicketUser.entropy rt))) self)
                  :: FlicketUser.session rt))
          | Raise ex =>
              (Raise ex,
               FlicketUser.set_token
                 (Some (fresh_token (FlicketUser.entropy rt))) self,
               FlicketUser.mkRuntime
                 (snd (os_urandom 24 (FlicketUser.entropy rt)))
                 (FlicketUser.session rt))
          end).
  now rewrite Hadd.
Qed.

(** The call that raises on the date arithmetic has already assigned the
    new token and drawn the bytes; the expiration is untouched and the
    object was not handed to the session. *)
Lemma get_token_run_overflow self expires_in now rt :
  mints self now ->
  datetime_after now expires_in = Raise OverflowError ->
  FlicketUser.get_token_run self expires_in now rt
    = (Raise OverflowError,
       FlicketUser.set_token (Some (fresh_token (FlicketUser.entropy rt))) self,
       FlicketUser.mkRuntime
         (snd (os_urandom 24 (FlicketUser.entropy rt)))
         (FlicketUser.session rt)).
Proof.
  intros Hm Hadd. unfold FlicketUser.get_token_run.
  rewrite (keep_test_mints _ _ Hm). cbv zeta.
  change (let '(fresh, rest) := os_urandom 24 (FlicketUser.entropy rt) in _)
    with (match datetime_after now expires_in with
          | Ok expiration =>
              (Ok (Some (fresh_token (FlicketUser.entropy rt))),
               FlicketUser.set_token_expiration (Some expiration)
                 (FlicketUser.set_token
                    (Some (fresh_token (FlicketUser.entropy rt))) self),
               FlicketUser.mkRuntime
                 (snd (os_urandom 24 (FlicketUser.entropy rt)))
                 (FlicketUser.set_token_expiration (Some expiration)
                    (FlicketUser.set_token
                       (Some (fresh_token (FlicketUser.entropy rt))) self)
                  :: FlicketUser.session rt))
          | Raise ex =>
              (Raise ex,
               FlicketUser.set_token
                 (Some (fresh_token (FlicketUser.entropy rt))) self,
               FlicketUser.mkRuntime
                 (snd (os_urandom 24 (FlicketUser.entropy rt)))
                 (FlicketUser.session rt))
          end).
  now rewrite Hadd.
Qed.

(** Every call is on one of the four paths. *)
Lemma get_token_run_paths self expires_in now :
  (truthy (FlicketUser.token self) = true /\
   FlicketUser.token_expiration self = None) \/
  (truthy (FlicketUser.token self) = true /\
   exists e, FlicketUser.token_expiration self = Some e /\
             now + timedelta_seconds 60 < e) \/
  (mints self now /\ exists e, datetime_after now expires_in = Ok e) \/
  (mints self now /\ datetime_after now expires_in = Raise OverflowError).
Proof.
  destruct (truthy (FlicketUser.token self)) eqn:Hset.
  - destruct (FlicketUser.token_expiration self) as [e|] eqn:He;
      [|now left].
    destruct (Z.ltb_spec (now + timedelta_seconds 60) e) as [Hlt|Hge].
    + right. left. split; [reflexivity|]. now exists e.
    + assert (Hm : mints self now) by (right; now exists e).
      destruct (datetime_after_cases now expires_in) as [Hok|Hraise];
        right; right; [left | right]; now split.
  - assert (Hm : mints self now) by now left.
    destruct (datetime_after_cases now expires_in) as [Hok|Hraise];
      right; right; [left | right]; now split.
Qed.

Lemma get_token_of_run self expires_in now rt :
  FlicketUser.get_token self expires_in now rt =
  match FlicketUser.get_token_run self expires_in now rt with
  | (Ok r, self', rt') => Ok (r, self', rt')
  | (Raise e, _, _) => Raise e
  end.
Proof. reflexivity. Qed.

Lemma get_token_keep self expires_in now rt e :
  truthy (FlicketUser.token self) = true ->
  FlicketUser.token_expiration self = Some e ->
  now + timedelta_seconds 60 < e ->
  FlicketUser.get_token self expires_in now rt
    = Ok (FlicketUser.token self, self, rt).
Proof.
  intros Htok He Hlt.
  now rewrite get_token_of_run, (get_token_run_keep _ _ _ _ e).
Qed.

Lemma get_token_mint self expires_in now rt e :
  mints self now ->
  datetime_after now expires_in = Ok e ->
  let self' :=
    FlicketUser.set_token_expiration (Some e)
      (FlicketUser.set_token (Some (fresh_token (FlicketUser.entropy rt)))
         self) in
  FlicketUser.get_token self expires_in now rt
    = Ok (Some (fresh_token (FlicketUser.entropy rt)), self',
          FlicketUser.mkRuntime
            (snd (os_urandom 24 (FlicketUser.entropy rt)))
            (self' :: FlicketUser.session rt)).
Proof.
  intros Hm Hadd.
  now rewrite get_token_of_run, (get_token_run_mint _ _ _ _ e Hm Hadd).
Qed.

Lemma get_token_overflow self expires_in now rt :
  mints self now ->
  datetime_after now expires_in = Raise OverflowError ->
  FlicketUser.get_token self expires_in now rt = Raise OverflowError.
Proof.
  intros Hm Hadd.
  now rewrite get_token_of_run, (get_token_run_overflow _ _ _ _ Hm Hadd).
Qed.

Lemma get_token_type_error self expires_in now rt :
  truthy (FlicketUser.token self) = true ->
  FlicketUser.token_expiration self = None ->
  FlicketUser.get_token self expires_in now rt = Raise TypeError.
Proof.
  intros Htok He.
  now rewrite get_token_of_run, (get_token_run_type_error _ _ _ _ Htok He).
Qed.

(** A call that returns either kept the token or minted one. *)
Lemma get_token_cases self expires_in now rt r self' rt' :
  FlicketUser.get_token self expires_in now rt = Ok (r, self', rt') ->
  (truthy (FlicketUser.token self) = true /\
   (exists e, FlicketUser.token_expiration self = Some e /\
              now + timedelta_seconds 60 < e) /\
   r = FlicketUser.token self /\ self' = self /\ rt' = rt) \/
  (mints self now /\
   exists e,
     datetime_after now expires_in = Ok e /\
     r = Some (fresh_token (FlicketUser.entropy rt)) /\
     self' = FlicketUser.set_token_expiration (Some e)
               (FlicketUser.set_token
                  (Some (fresh_token (FlicketUser.entropy rt))) self) /\
     rt' = FlicketUser.mkRuntime
             (snd (os_urandom 24 (FlicketUser.entropy rt)))
             (self' :: FlicketUser.session rt)).
Proof.
  intros Hcall.
  destruct (get_token_run_paths self expires_in now)
    as [(Hset & He)|[(Hset & e & He & Hlt)|[(Hm & e & Hadd)|(Hm & Hadd)]]].
  - now rewrite (get_token_type_error _ _ _ _ Hset He) in Hcall.
  - left. rewrite (get_token_keep _ _ _ _ e Hset He Hlt) in Hcall.
    injection Hcall as <- <- <-. repeat split; try assumption. now exists e.
  - right. rewrite (get_token_mint _ _ _ _ e Hm Hadd) in Hcall.
    injection Hcall as <- <- <-. split; [exact Hm|]. exists e. now repeat split.
  - now rewrite (get_token_overflow _ _ _ _ Hm Hadd) in Hcall.
Qed.

(** C2: for a user whose token is set (a non-empty string, the test
    [if self.token] applies) and whose expiration lies more than 60
    seconds after the current time, [get_token] returns the stored token
    and leaves the user and the runtime as they were; hence a second call
    made within the validity window of whatever a first call returned
    gives the identical token string and changes nothing. *)
Theorem get_token_idempotent self expires_in now rt e :
  truthy (FlicketUser.token self) = true ->
  FlicketUser.token_expiration self = Some e ->
  now + timedelta_seconds 60 < e ->
  FlicketUser.get_token self expires_in now rt
    = Ok (FlicketUser.token self, self, rt) /\
  (exists tok, FlicketUser.token self = Some tok) /\
  (forall self0 x0 now0 rt0 r1 self1 rt1,
     FlicketUser.get_token self0 x0 now0 rt0 = Ok (r1, self1, rt1) ->
     forall x' now' e1,
       FlicketUser.token_expiration self1 = Some e1 ->
       now' + timedelta_seconds 60 < e1 ->
       FlicketUser.get_token self1 x' now' rt1 = Ok (r1, self1, rt1)).
Proof.
  intros Htok He Hlt. split; [|split].
  - now apply (get_token_keep _ _ _ _ e).
  - destruct (FlicketUser.token self) as [tok|]; [now exists tok | discriminate].
  - clear. intros self0 x0 now0 rt0 r1 self1 rt1 Hfirst x' now' e1 He1 Hlt1.
    assert (r1 = FlicketUser.token self1 /\
            truthy (FlicketUser.token self1) = true) as [-> Hset].
    { destruct (get_token_cases _ _ _ _ _ _ _ Hfirst)
        as [(Hset & _ & -> & -> & _)|(_ & e & _ & -> & -> & _)].
      - now split.
      - split; reflexivity. }
    now apply (get_token_keep _ _ _ _ e1).
Qed.

Lemma get_token_idempotent_witness :
  FlicketUser.get_token Samples.alice 36000 Samples.t0 Samples.rt
    = Ok (Some Samples.alice_token, Samples.alice, Samples.rt).
Proof.
  apply (get_token_idempotent Samples.alice 36000 Samples.t0 Samples.rt
           (Samples.t0 + timedelta_seconds 600)).
  - reflexivity.
  - reflexivity.
  - unfold timedelta_seconds. lia.
Defined.

(** C3, as amended: for a user with no token, or with a token whose
    expiration is at most 60 seconds after the current time, and for an
    [expires_in] such that [now + expires_in] seconds is a date of the
    calendar, [get_token(expires_in)] draws 24 bytes from the random
    source, stores their base64 text as the token and
    [now + expires_in] seconds as the expiration, hands the mutated
    record to the session and returns the new token; the default
    [expires_in] is 36000.  When [now + expires_in] is no date of the
    calendar the call raises [OverflowError]: the new token is then
    already stored, the expiration is as it was and the record was not
    handed to the session. *)
Theorem get_token_mints self expires_in now rt :
  FlicketUser.token self = None \/
  (exists e, FlicketUser.token_expiration self = Some e /\
             e <= now + timedelta_seconds 60) ->
  let fresh := fst (os_urandom 24 (FlicketUser.entropy rt)) in
  let tok := decode_utf8 (b64encode fresh) in
  length fresh = 24%nat /\
  fresh = map (FlicketUser.entropy rt) (seq 0 24) /\
  FlicketUser.default_expires_in = 36000 /\
  (-999999999 <= expires_in / 86400 <= 999999999 ->
   datetime_min <= now + expires_in * 1000000 <= datetime_max ->
   exists self' rt',
     FlicketUser.get_token self expires_in now rt = Ok (Some tok, self', rt') /\
     (forall i, FlicketUser.entropy rt' i
                = FlicketUser.entropy rt (24 + i)%nat) /\
     FlicketUser.token self' = Some tok /\
     FlicketUser.token_expiration self'
       = Some (now + expires_in * 1000000) /\
     self' = FlicketUser.set_token_expiration
               (Some (now + expires_in * 1000000))
               (FlicketUser.set_token (Some tok) self) /\
     FlicketUser.session rt' = self' :: FlicketUser.session rt) /\
  (~ (-999999999 <= expires_in / 86400 <= 999999999 /\
      datetime_min <= now + expires_in * 1000000 <= datetime_max) ->
   FlicketUser.get_token self expires_in now rt = Raise OverflowError /\
   FlicketUser.get_token_run self expires_in now rt
     = (Raise OverflowError,
        FlicketUser.set_token (Some tok) self,
        FlicketUser.mkRuntime (snd (os_urandom 24 (FlicketUser.entropy rt)))
          (FlicketUser.session rt))).
Proof.
  intros Hcase fresh tok.
  assert (Hm : mints self now).
  { destruct Hcase as [Hnone|Hexp]; [left | now right]. now rewrite Hnone. }
  split; [apply urandom_length|]. split; [reflexivity|].
  split; [reflexivity|]. split.
  - intros Hdelta Hrange.
    assert (Hadd : datetime_after now expires_in
                   = Ok (now + expires_in * 1000000))
      by (apply datetime_after_Ok; repeat split; lia).
    eexists _, _. split; [apply (get_token_mint _ _ _ _ _ Hm Hadd)|].
    repeat split.
  - intros Hout.
    assert (Hadd : datetime_after now expires_in = Raise OverflowError).
    { destruct (datetime_after_cases now expires_in) as [[e He]|Hr];
        [|exact Hr].
      apply datetime_after_Ok in He as (-> & Hd & Hr). now destruct Hout. }
    split.
    + now apply get_token_overflow.
    + now apply get_token_run_overflow.
Qed.

Lemma get_token_mints_witness :
  exists self' rt',
    FlicketUser.get_token Samples.carol 36000 Samples.t0 Samples.rt
      = Ok (Some "AAAAAAAAAAAAAAAAAAAAAAAAAAAAAAAA", self', rt') /\
    FlicketUser.token_expiration self' = Some (Samples.t0 + 36000000000).
Proof.
  destruct (get_token_mints Samples.carol 36000 Samples.t0 Samples.rt
              (or_introl eq_refl))
    as (_ & _ & _ & Hin & _).
  destruct Hin as (self' & rt' & Hcall & _ & _ & Hexp & _).
  - vm_compute. split; discriminate.
  - vm_compute. split; discriminate.
  - exists self', rt'. split; [exact Hcall | exact Hexp].
Defined.

(** C3 as stated fails for an [expires_in] that leads out of the
    calendar: ten to the twelfth seconds from the sample time lie beyond
    year 9999, and the call raises instead of returning a token. *)
Lemma get_token_out_of_calendar :
  FlicketUser.token Samples.carol = None /\
  FlicketUser.get_token Samples.carol Samples.far_future Samples.t0 Samples.rt
    = Raise OverflowError /\
  FlicketUser.get_token_run Samples.carol Samples.far_future Samples.t0
    Samples.rt
    = (Raise OverflowError,
       FlicketUser.set_token (Some "AAAAAAAAAAAAAAAAAAAAAAAAAAAAAAAA")
         Samples.carol,
       FlicketUser.mkRuntime (fun i => Samples.stuck_entropy (24 + i)%nat) []).
Proof. repeat split. Qed.

(** ** Password check *)

Lemma first_filter_by_username_None (rows : list FlicketUser.t) name :
  (forall row, In row rows -> FlicketUser.username row <> name) ->
  FlicketUser.filter_by_username name rows = [].
Proof.
  intros Hno. unfold FlicketUser.filter_by_username.
  induction rows as [|r rows IH]; [reflexivity|]. simpl.
  rewrite bool_decide_eq_false_2 by (apply Hno; now left).
  apply IH. intros row Hin. apply Hno. now right.
Qed.

Lemma check_password_no_row hashpw db self pw :
  FlicketUser.filter_by_username (FlicketUser.username self)
    (FlicketUser.flicket_users db) = [] ->
  FlicketUser.check_password hashpw db self pw = Ok false.
Proof. intros Hnone. unfold FlicketUser.check_password. now rewrite Hnone. Qed.

Lemma check_password_row hashpw db self pw row :
  first (FlicketUser.filter_by_username (FlicketUser.username self)
           (FlicketUser.flicket_users db)) = Some row ->
  FlicketUser.check_password hashpw db self pw =
  match hashpw (encode_utf8 pw) (FlicketUser.password row) with
  | Ok h => Ok (bool_decide (h = FlicketUser.password row))
  | Raise e => Raise e
  end.
Proof.
  intros Hrow. unfold FlicketUser.check_password.
  destruct (FlicketUser.filter_by_username _ _) as [|r rest]; [discriminate|].
  injection Hrow as ->. cbn.
  destruct (hashpw _ _) as [h|e]; [|reflexivity]. cbn.
  destruct (decide (h = FlicketUser.password row)) as [Heq|Hne].
  - rewrite (bool_decide_eq_false_2 (h <> _)) by (intros Hne; now apply Hne).
    now rewrite bool_decide_eq_true_2.
  - rewrite (bool_decide_eq_true_2 (h <> _)) by assumption.
    now rewrite bool_decide_eq_false_2.
Qed.

(** C4, as amended: [check_password] looks the row up by the username
    of [self] and by nothing else of [self]; it is false when no row has
    that username; with a row it is true exactly when hashing the
    plaintext with the stored digest as salt gives the stored digest
    back, and false when it gives another digest.  For a user created
    with password [P] (the stored digest is the hash of [P] under some
    salt, and the primitive reproduces a digest when given it as salt)
    [check_password(P)] is true, and [check_password(P + "x")] is false
    exactly when the primitive, salted with the stored digest, gives
    [P + "x"] a digest other than the stored one.  The check is a
    function of the tables and changes nothing. *)
Theorem check_password_spec hashpw db self pw :
  (forall other,
     FlicketUser.username other = FlicketUser.username self ->
     FlicketUser.check_password hashpw db other pw
       = FlicketUser.check_password hashpw db self pw) /\
  ((forall row, In row (FlicketUser.flicket_users db) ->
                FlicketUser.username row <> FlicketUser.username self) ->
   FlicketUser.check_password hashpw db self pw = Ok false) /\
  (forall row,
     first (FlicketUser.filter_by_username (FlicketUser.username self)
              (FlicketUser.flicket_users db)) = Some row ->
     (FlicketUser.check_password hashpw db self pw = Ok true <->
      hashpw (encode_utf8 pw) (FlicketUser.password row)
        = Ok (FlicketUser.password row)) /\
     (forall h, hashpw (encode_utf8 pw) (FlicketUser.password row) = Ok h ->
                h <> FlicketUser.password row ->
                FlicketUser.check_password hashpw db self pw = Ok false)) /\
  (resalts hashpw ->
   forall row P salt,
     first (FlicketUser.filter_by_username (FlicketUser.username self)
              (FlicketUser.flicket_users db)) = Some row ->
     hashpw (encode_utf8 P) salt = Ok (FlicketUser.password row) ->
     FlicketUser.check_password hashpw db self P = Ok true /\
     (FlicketUser.check_password hashpw db self (String.append P "x")
        = Ok false <->
      exists h,
        hashpw (encode_utf8 (String.append P "x")) (FlicketUser.password row)
          = Ok h /\ h <> FlicketUser.password row)).
Proof.
  split; [|split; [|split]].
  - intros other Hname. unfold FlicketUser.check_password. now rewrite Hname.
  - intros Hno. now apply check_password_no_row, first_filter_by_username_None.
  - intros row Hrow. rewrite (check_password_row _ _ _ _ _ Hrow). split.
    + destruct (hashpw _ _) as [h|e]; [|split; discriminate].
      destruct (bool_decide_reflect (h = FlicketUser.password row)) as [->|Hne].
      * split; reflexivity.
      * split; [discriminate|]. intros [= Heq]. now destruct Hne.
    + intros h -> Hne. now rewrite bool_decide_eq_false_2.
  - intros Hhash row P salt Hrow Hmade. split.
    + rewrite (check_password_row _ _ _ _ _ Hrow).
      rewrite (Hhash _ _ _ Hmade).
      now rewrite bool_decide_eq_true_2.
    + rewrite (check_password_row _ _ _ _ _ Hrow).
      destruct (hashpw (encode_utf8 (String.append P "x"))
                  (FlicketUser.password row)) as [h|e].
      * destruct (bool_decide_reflect (h = FlicketUser.password row))
          as [->|Hne].
        -- split; [discriminate|]. intros (h & [= <-] & Hne). now destruct Hne.
        -- split; [|reflexivity]. intros _. now exists h.
      * split; [discriminate | intros (h & [=] & _)].
Qed.

Lemma take_29_of_digest (s x : bytes) :
  (29 <= length s)%nat -> take 29 (take 29 s ++ x) = take 29 s.
Proof.
  intros Hlen. rewrite take_app_le by (rewrite length_take; lia).
  rewrite take_take. f_equal.
Qed.

Lemma bcrypt_like_resalts : resalts Samples.bcrypt_like_hashpw.
Proof.
  intros p s h. unfold Samples.bcrypt_like_hashpw.
  destruct (Nat.ltb_spec (length s) 29) as [|Hlen]; [discriminate|].
  intros [= <-].
  destruct (Nat.ltb_spec (length (take 29 s ++ take 72 p)) 29) as [Hshort|_].
  - rewrite length_app, length_take in Hshort. lia.
  - now rewrite take_29_of_digest.
Qed.

Lemma check_password_spec_witness :
  FlicketUser.check_password Samples.bcrypt_like_hashpw Samples.db_heidi
    Samples.heidi Samples.long_password = Ok true.
Proof.
  destruct (check_password_spec Samples.bcrypt_like_hashpw Samples.db_heidi
              Samples.heidi Samples.long_password) as (_ & _ & _ & Hcreated).
  apply (Hcreated bcrypt_like_resalts Samples.heidi Samples.long_password
           Samples.salt29); reflexivity.
Defined.

(** C4 as stated fails for a password of 72 bytes under a primitive
    that, like bcrypt, reads no more than 72 bytes of its input: the
    user was created with [P], and [P + "x"] is accepted. *)
Lemma check_password_accepts_longer_password :
  Samples.bcrypt_like_hashpw (encode_utf8 Samples.long_password)
    Samples.salt29 = Ok (FlicketUser.password Samples.heidi) /\
  FlicketUser.check_password Samples.bcrypt_like_hashpw Samples.db_heidi
    Samples.heidi Samples.long_password = Ok true /\
  FlicketUser.check_password Samples.bcrypt_like_hashpw Samples.db_heidi
    Samples.heidi (String.append Samples.long_password "x") = Ok true /\
  FlicketUser.check_password Samples.bcrypt_like_hashpw Samples.db_heidi
    Samples.heidi (String.append Samples.long_password "x") <> Ok false.
Proof.
  repeat split; try reflexivity. vm_compute. discriminate.
Qed.

(** ** Admin test *)

Lemma insert_by_name_In g gs x :
  In x (FlicketGroup.insert_by_name g gs) <-> x = g \/ In x gs.
Proof.
  induction gs as [|h gs IH]; simpl.
  - intuition congruence.
  - destruct (String.leb _ _); simpl; [intuition congruence|].
    rewrite IH. intuition congruence.
Qed.

(** Ordering the collection keeps its members. *)
Lemma order_by_group_name_In gs x :
  In x (FlicketGroup.order_by_group_name gs) <-> In x gs.
Proof.
  unfold FlicketGroup.order_by_group_name.
  induction gs as [|g gs IH]; simpl; [tauto|].
  rewrite insert_by_name_In, IH. intuition congruence.
Qed.

Lemma unique_from_In {A} `{EqDecision A} (seen l : list A) x :
  In x (unique_from seen l) <-> In x l /\ ~ In x seen.
Proof.
  revert seen. induction l as [|y l IH]; intros seen; simpl.
  - tauto.
  - destruct (bool_decide_reflect (y ∈ seen)) as [Hy|Hy];
      rewrite list_elem_of_In in Hy.
    + rewrite IH. split.
      * intros [Hin Hno]. auto.
      * intros [[<-|Hin] Hno]; [contradiction | auto].
    + simpl. rewrite IH. simpl. split.
      * intros [<-|[Hin Hno]]; [auto|]. split; [now right | tauto].
      * intros [[<-|Hin] Hno]; [now left|].
        destruct (decide (y = x)) as [->|Hne]; [now left|]. right.
        split; [exact Hin|]. intros [Heq|Hseen]; [now apply Hne | now apply Hno].
Qed.

(** Taking each object once keeps the members. *)
Lemma unique_list_In {A} `{EqDecision A} (l : list A) x :
  In x (unique_list l) <-> In x l.
Proof. unfold unique_list. rewrite unique_from_In. simpl. tauto. Qed.

Lemma user_groups_associated db user g :
  In g (FlicketUser.user_groups db user) <-> associated db user g.
Proof.
  unfold FlicketUser.user_groups, associated.
  destruct (FlicketUser.id user) as [uid|].
  - rewrite unique_list_In, order_by_group_name_In, in_flat_map. split.
    + intros ([u gid] & Hlink & Hin). simpl in Hin.
      destruct (Z.eqb_spec u uid) as [->|]; [|destruct Hin].
      apply filter_In in Hin as [Hg Hid]. apply Z.eqb_eq in Hid.
      exists uid. rewrite Hid. auto.
    + intros (uid' & [= <-] & Hg & Hlink).
      exists (uid, FlicketGroup.id g). split; [assumption|]. simpl.
      rewrite Z.eqb_refl. apply filter_In. split; [assumption|].
      apply Z.eqb_refl.
  - split; [intros [] | intros (uid & Hid & _); discriminate].
Qed.

Lemma is_admin_loop_values admin gs :
  FlicketUser.is_admin_loop admin gs = VBool true \/
  FlicketUser.is_admin_loop admin gs = VNone.
Proof.
  induction gs as [|g gs IH]; simpl; [now right|].
  destruct (String.eqb _ _); [now left | exact IH].
Qed.

Lemma is_admin_loop_true admin gs :
  py_bool (FlicketUser.is_admin_loop admin gs) = true <->
  exists g, In g gs /\ FlicketGroup.group_name g = admin.
Proof.
  induction gs as [|g gs IH]; simpl.
  - split; [discriminate | intros (g & [] & _)].
  - destruct (String.eqb_spec (FlicketGroup.group_name g) admin) as [Heq|Hne].
    + split; [|reflexivity]. intros _. exists g. auto.
    + rewrite IH. split.
      * intros (g' & Hin & Hname). exists g'. auto.
      * intros (g' & [<-|Hin] & Hname); [contradiction|]. now exists g'.
Qed.

Lemma first_filter_by_id_Some (rows : list FlicketUser.t) v row :
  first (FlicketUser.filter_by_id v rows) = Some row ->
  In row rows /\ FlicketUser.id row = v.
Proof.
  unfold first, FlicketUser.filter_by_id. intros Hhd.
  assert (Hin : In row (List.filter
            (fun u => bool_decide (FlicketUser.id u = v)) rows)).
  { destruct (List.filter _ rows); simplify_eq/=. now left. }
  apply filter_In in Hin as [Hin Hid].
  split; [assumption | now apply bool_decide_eq_true_1 in Hid].
Qed.

(** C5: [is_admin] fetches the row anew by the id of [self] (nothing
    else of [self] matters) and its value is true exactly when a group
    associated with that row carries the configured admin name; otherwise
    the loop falls through and the value, [None], is false. *)
Theorem is_admin_spec admin db self row :
  first (FlicketUser.filter_by_id (FlicketUser.id self)
           (FlicketUser.flicket_users db)) = Some row ->
  In row (FlicketUser.flicket_users db) /\
  FlicketUser.id row = FlicketUser.id self /\
  (forall other, FlicketUser.id other = FlicketUser.id self ->
     FlicketUser.is_admin admin db other = FlicketUser.is_admin admin db self) /\
  exists v,
    FlicketUser.is_admin admin db self = Ok v /\
    (v = VBool true \/ v = VNone) /\
    (py_bool v = true <->
     exists g, associated db row g /\ FlicketGroup.group_name g = admin) /\
    (py_bool v = false <->
     forall g, associated db row g -> FlicketGroup.group_name g <> admin).
Proof.
  intros Hrow. destruct (first_filter_by_id_Some _ _ _ Hrow) as [Hin Hid].
  repeat split; try assumption.
  - intros other Hother. unfold FlicketUser.is_admin. now rewrite Hother.
  - exists (FlicketUser.is_admin_loop admin (FlicketUser.user_groups db row)).
    assert (Htrue :
      py_bool (FlicketUser.is_admin_loop admin (FlicketUser.user_groups db row))
        = true <->
      exists g, associated db row g /\ FlicketGroup.group_name g = admin).
    { rewrite is_admin_loop_true. split; intros (g & Hg & Hname); exists g;
        (split; [now apply user_groups_associated | assumption]). }
    split; [|split; [|split]].
    + unfold FlicketUser.is_admin. now rewrite Hrow.
    + apply is_admin_loop_values.
    + exact Htrue.
    + rewrite <- not_true_iff_false, Htrue. split.
      * intros Hnone g Hg Hname. apply Hnone. now exists g.
      * intros Hall (g & Hg & Hname). now apply (Hall g).
Qed.

Lemma is_admin_spec_witness :
  exists v, FlicketUser.is_admin Samples.admin_name Samples.db Samples.alice
              = Ok v /\ py_bool v = true.
Proof.
  destruct (is_admin_spec Samples.admin_name Samples.db Samples.alice
              Samples.alice eq_refl) as (_ & _ & _ & v & Hv & _ & Htrue & _).
  exists v. split; [exact Hv|]. apply Htrue.
  exists Samples.admins. split; [|reflexivity].
  exists 1. simpl. repeat split; auto.
Defined.

(** The group sets of the sample database: none, one and two groups,
    with and without the admin group. *)
Example is_admin_two_groups_with_admin :
  FlicketUser.is_admin Samples.admin_name Samples.db Samples.alice
    = Ok (VBool true).
Proof. reflexivity. Qed.
Example is_admin_two_groups_without_admin :
  FlicketUser.is_admin Samples.admin_name Samples.db Samples.bob = Ok VNone.
Proof. reflexivity. Qed.
Example is_admin_no_group :
  FlicketUser.is_admin Samples.admin_name Samples.db Samples.dave = Ok VNone.
Proof. reflexivity. Qed.
Example is_admin_one_group_admin :
  FlicketUser.is_admin Samples.admin_name Samples.db Samples.erin
    = Ok (VBool true).
Proof. reflexivity. Qed.
Example is_admin_one_group_other :
  FlicketUser.is_admin Samples.admin_name Samples.db Samples.frank = Ok VNone.
Proof. reflexivity. Qed.

(** An object whose id selects no row makes the refetch return [None],
    and reading its groups raises. *)
Example is_admin_unsaved :
  FlicketUser.is_admin Samples.admin_name Samples.db Samples.carol
    = Raise AttributeError.
Proof. reflexivity. Qed.

(** ** Revocation *)

Lemma store_users db i row self stamp :
  FlicketUser.flicket_users db !! i = Some row ->
  FlicketUser.flicket_users (FlicketUser.store i self stamp db)
    = <[i := written row self stamp]> (FlicketUser.flicket_users db).
Proof.
  intros Hi. unfold FlicketUser.store, written. rewrite Hi.
  destruct (bool_decide_reflect (row = self)) as [<-|Hne]; [|reflexivity].
  symmetry. now apply list_insert_id.
Qed.

Lemma written_token row self stamp :
  FlicketUser.token (written row self stamp) = FlicketUser.token self.
Proof. unfold written. now destruct (bool_decide _). Qed.

Lemma written_token_expiration row self stamp :
  FlicketUser.token_expiration (written row self stamp)
    = FlicketUser.token_expiration self.
Proof. unfold written. now destruct (bool_decide _). Qed.

Lemma store_lookup db i row self stamp :
  FlicketUser.flicket_users db !! i = Some row ->
  FlicketUser.flicket_users (FlicketUser.store i self stamp db) !! i
    = Some (written row self stamp).
Proof.
  intros Hi. rewrite (store_users _ _ _ _ _ Hi).
  apply list_lookup_insert_eq, lookup_lt_is_Some. eauto.
Qed.

Lemma store_tokens_unique db i row self stamp :
  FlicketUser.flicket_users db !! i = Some row ->
  FlicketUser.token self = FlicketUser.token row ->
  tokens_unique (FlicketUser.flicket_users db) ->
  tokens_unique (FlicketUser.flicket_users (FlicketUser.store i self stamp db)).
Proof.
  intros Hi Htok Huniq. rewrite (store_users _ _ _ _ _ Hi).
  apply (tokens_unique_store _ _ row); try assumption.
  now rewrite written_token.
Qed.

(** C6, as amended: for a stored user holding a token, [revoke_token]
    sets the expiration to one second before the current time and leaves
    every other column, the token string included, as it was; from then
    on [check_token] of that token returns [None], and a later
    [get_token] does not hand the stored token back: it takes the minting
    path, returning a token made from the next 24 random bytes when
    [now + expires_in] is a date of the calendar and raising
    [OverflowError] otherwise.  The minted string equals the revoked one
    only if the revoked token is the base64 text of 24 bytes and the
    random source yields those bytes again. *)
Theorem revoke_token_spec db i self tok now :
  FlicketUser.flicket_users db !! i = Some self ->
  FlicketUser.token self = Some tok ->
  tokens_unique (FlicketUser.flicket_users db) ->
  let self' := FlicketUser.revoke_token self now in
  FlicketUser.token_expiration self' = Some (now - 1000000) /\
  FlicketUser.token self' = Some tok /\
  (FlicketUser.id self' = FlicketUser.id self /\
   FlicketUser.username self' = FlicketUser.username self /\
   FlicketUser.name self' = FlicketUser.name self /\
   FlicketUser.password self' = FlicketUser.password self /\
   FlicketUser.email self' = FlicketUser.email self /\
   FlicketUser.date_added self' = FlicketUser.date_added self /\
   FlicketUser.date_modified self' = FlicketUser.date_modified self /\
   FlicketUser.job_title self' = FlicketUser.job_title self /\
   FlicketUser.avatar self' = FlicketUser.avatar self /\
   FlicketUser.total_posts self' = FlicketUser.total_posts self) /\
  (forall stamp now', now <= now' ->
     FlicketUser.check_token (FlicketUser.store i self' stamp db) tok now'
       = Ok None) /\
  (forall now' expires_in rt, now <= now' ->
     let fresh := fresh_token (FlicketUser.entropy rt) in
     (forall r self2 rt2,
        FlicketUser.get_token self' expires_in now' rt = Ok (r, self2, rt2) ->
        r = Some fresh /\ FlicketUser.token self2 = Some fresh) /\
     (forall e, datetime_after now' expires_in = Ok e ->
        exists self2 rt2,
          FlicketUser.get_token self' expires_in now' rt
            = Ok (Some fresh, self2, rt2)) /\
     (datetime_after now' expires_in = Raise OverflowError ->
      FlicketUser.get_token self' expires_in now' rt = Raise OverflowError) /\
     (forall old, length old = 24%nat -> tok = decode_utf8 (b64encode old) ->
        (fresh = tok <-> fst (os_urandom 24 (FlicketUser.entropy rt)) = old)) /\
     ((forall old, length old = 24%nat -> tok <> decode_utf8 (b64encode old)) ->
      fresh <> tok)).
Proof.
  intros Hi Htok Huniq self'.
  split; [reflexivity|]. split; [exact Htok|].
  split; [repeat split|]. split.
  - intros stamp now' Hle.
    rewrite (check_token_found _ _ _ (written self self' stamp)
               (now - 1000000)).
    + destruct (Z.ltb_spec (now - 1000000) now'); [reflexivity | lia].
    + apply (first_filter_by_token_unique _ i).
      * now apply (store_tokens_unique _ _ self).
      * now apply store_lookup.
      * now rewrite written_token.
    + now rewrite written_token_expiration.
  - intros now' expires_in rt Hle fresh.
    assert (Hm : mints self' now').
    { right. exists (now - 1000000). split; [reflexivity|].
      unfold timedelta_seconds. lia. }
    split; [|split; [|split; [|split]]].
    + intros r self2 rt2 Hcall.
      destruct (get_token_cases _ _ _ _ _ _ _ Hcall)
        as [(_ & (e & He & Hlt) & _)|(_ & e & _ & -> & -> & _)].
      * injection He as <-. unfold timedelta_seconds in Hlt. lia.
      * split; reflexivity.
    + intros e Hadd. eexists _, _. apply (get_token_mint _ _ _ _ e Hm Hadd).
    + intros Hadd. now apply get_token_overflow.
    + intros old Hlen ->. now apply fresh_token_inj.
    + intros Hnot Heq. apply (Hnot (fst (os_urandom 24 (FlicketUser.entropy rt)))).
      * apply urandom_length.
      * now rewrite <- Heq.
Qed.

Lemma revoke_token_spec_witness :
  FlicketUser.check_token
    (FlicketUser.store 0 (FlicketUser.revoke_token Samples.alice Samples.t0)
       (Samples.t0 + 1) Samples.db)
    Samples.alice_token (Samples.t0 + 1) = Ok None.
Proof.
  apply (revoke_token_spec Samples.db 0 Samples.alice Samples.alice_token
           Samples.t0 eq_refl eq_refl sample_tokens_unique).
  lia.
Defined.

(** C6 as stated fails where the random source repeats itself: the
    token minted after the revocation is the revoked string again. *)
Lemma revoked_token_minted_again :
  let now := Samples.t0 + timedelta_seconds 5 in
  let revoked := FlicketUser.revoke_token Samples.grace now in
  FlicketUser.token Samples.grace = Some "AAAAAAAAAAAAAAAAAAAAAAAAAAAAAAAA" /\
  FlicketUser.token revoked = Some "AAAAAAAAAAAAAAAAAAAAAAAAAAAAAAAA" /\
  exists self2 rt2,
    FlicketUser.get_token revoked FlicketUser.default_expires_in
      (now + timedelta_seconds 1) Samples.rt
      = Ok (Some "AAAAAAAAAAAAAAAAAAAAAAAAAAAAAAAA", self2, rt2).
Proof.
  cbv zeta. split; [reflexivity|]. split; [reflexivity|].
  eexists _, _. vm_compute. reflexivity.
Qed.

(** ** Paginated collections *)

Lemma paginate_25_by_10 {A} (query : list A) page :
  length query = 25%nat -> 1 <= page <= 3 ->
  paginate query page 10
    = mkPagination page 10 25
        (take 10 (drop (Z.to_nat ((page - 1) * 10)) query)).
Proof.
  intros Hlen Hpage. unfold paginate, count. rewrite Hlen.
  destruct (Z.ltb_spec page 1); [lia | reflexivity].
Qed.

(** The size of a page of a 25-row query cut by tens. *)
Lemma page_size_25_by_10 {A} (query : list A) page :
  length query = 25%nat -> 1 <= page <= 3 ->
  length (take 10 (drop (Z.to_nat ((page - 1) * 10)) query))
    = if Z.eqb page 3 then 5%nat else 10%nat.
Proof.
  intros Hlen Hpage. rewrite length_take, length_drop, Hlen.
  destruct (Z.eqb_spec page 3); lia.
Qed.

(** C7: over a query of 25 rows cut into pages of 10, for each of the
    pages 1 to 3, [to_collection_dict] returns under [items] the rows of
    that page, each through its own [to_dict]; under [_meta] the given
    page, the page size, 3 pages and 25 items; under [_links] a [next]
    and a [prev] that are [None] exactly when the collection has no page
    after or before the given one: page 1 has [next] and no [prev], page
    3 has [prev] and no [next]. *)
Theorem to_collection_dict_25_by_10 (url_for : string -> gmap string PyVal -> string)
    {A} `{HasToDict A} (query : list A) page endpoint kwargs :
  length query = 25%nat -> 1 <= page <= 3 ->
  let data :=
    PaginatedAPIMixin.to_collection_dict url_for query page 10 endpoint kwargs in
  let link p :=
    VStr (url_for endpoint (PaginatedAPIMixin.link_values p 10 kwargs)) in
  dict_get data "items"
    = Some (VList (map item_to_dict
                     (take 10 (drop (Z.to_nat ((page - 1) * 10)) query)))) /\
  dict_get2 data "_meta" "page" = Some (VInt page) /\
  dict_get2 data "_meta" "per_page" = Some (VInt 10) /\
  dict_get2 data "_meta" "total_pages" = Some (VInt 3) /\
  dict_get2 data "_meta" "total_items" = Some (VInt 25) /\
  dict_get2 data "_links" "self" = Some (link page) /\
  dict_get2 data "_links" "next"
    = Some (if Z.ltb page 3 then link (page + 1) else VNone) /\
  dict_get2 data "_links" "prev"
    = Some (if Z.ltb 1 page then link (page - 1) else VNone) /\
  (dict_get2 data "_links" "next" = Some VNone <-> ~ (1 <= page + 1 <= 3)) /\
  (dict_get2 data "_links" "prev" = Some VNone <-> ~ (1 <= page - 1 <= 3)) /\
  (page = 1 -> dict_get2 data "_links" "next" = Some (link 2) /\
               dict_get2 data "_links" "prev" = Some VNone) /\
  (page = 3 -> dict_get2 data "_links" "prev" = Some (link 2) /\
               dict_get2 data "_links" "next" = Some VNone).
Proof.
  intros Hlen Hpage data link.
  assert (Hnext : dict_get2 data "_links" "next"
            = Some (if Z.ltb page 3 then link (page + 1) else VNone)).
  { subst data. unfold PaginatedAPIMixin.to_collection_dict.
    rewrite (paginate_25_by_10 _ _ Hlen Hpage). reflexivity. }
  assert (Hprev : dict_get2 data "_links" "prev"
            = Some (if Z.ltb 1 page then link (page - 1) else VNone)).
  { subst data. unfold PaginatedAPIMixin.to_collection_dict.
    rewrite (paginate_25_by_10 _ _ Hlen Hpage). reflexivity. }
  repeat match goal with |- _ /\ _ => split end;
    try exact Hnext; try exact Hprev;
    try (subst data; unfold PaginatedAPIMixin.to_collection_dict;
         rewrite (paginate_25_by_10 _ _ Hlen Hpage); reflexivity).
  - rewrite Hnext. destruct (Z.ltb_spec page 3).
    + split; [discriminate | lia].
    + split; [lia | reflexivity].
  - rewrite Hprev. destruct (Z.ltb_spec 1 page).
    + split; [discriminate | lia].
    + split; [lia | reflexivity].
  - intros ->. now rewrite Hnext, Hprev.
  - intros ->. now rewrite Hnext, Hprev.
Qed.

Lemma to_collection_dict_25_by_10_witness :
  let data :=
    PaginatedAPIMixin.to_collection_dict Samples.plain_url_for
      (H := FlicketUser.to_dict Samples.plain_url_for)
      Samples.query25 1 10 "bp_api_v2.get_users" ∅ in
  dict_get2 data "_meta" "total_pages" = Some (VInt 3) /\
  dict_get2 data "_links" "prev" = Some VNone.
Proof.
  destruct (to_collection_dict_25_by_10 Samples.plain_url_for
              (H := FlicketUser.to_dict Samples.plain_url_for)
              Samples.query25 1 "bp_api_v2.get_users" ∅ eq_refl
              (conj (Z.le_refl 1) (Zle_bool_imp_le 1 3 eq_refl)))
    as (_ & _ & _ & Hpages & _ & _ & _ & _ & _ & _ & Hfirst & _).
  split; [exact Hpages | exact (proj2 (Hfirst eq_refl))].
Defined.

(** ** Serialisation of a user *)

Lemma to_dict_job_title url_for self :
  dict_get (FlicketUser.to_dict url_for self) "job_title"
    = Some (if truthy (FlicketUser.job_title self)
            then FlicketUser.py_str (FlicketUser.job_title self)
            else VStr "unknown").
Proof. reflexivity. Qed.

Lemma to_dict_keys url_for self :
  exists d, FlicketUser.to_dict url_for self = VDict d /\
    dom d = list_to_set
              ["id"; "username"; "name"; "email"; "job_title"; "total_posts";
               "links"].
Proof.
  eexists. split; [reflexivity|]. rewrite dom_list_to_map_L. reflexivity.
Qed.

(** C8, as amended: [to_dict] returns a map whose keys are exactly
    [id], [username], [name], [email], [job_title], [total_posts] and
    [links], the last holding the self link; [job_title] is ["unknown"]
    when the user has no job title or an empty one, and the stored value
    when a non-empty one is stored; no [password] or [token] key occurs,
    at the top or under [links], and the output is the same for two
    users that differ only in columns other than the six listed. *)
Theorem to_dict_spec url_for self :
  exists d,
    FlicketUser.to_dict url_for self = VDict d /\
    dom d = list_to_set
              ["id"; "username"; "name"; "email"; "job_title"; "total_posts";
               "links"] /\
    d !! "id" = Some (FlicketUser.py_int (FlicketUser.id self)) /\
    d !! "username" = Some (VStr (FlicketUser.username self)) /\
    d !! "name" = Some (VStr (FlicketUser.name self)) /\
    d !! "email" = Some (VStr (FlicketUser.email self)) /\
    d !! "total_posts" = Some (FlicketUser.py_int (FlicketUser.total_posts self)) /\
    d !! "links"
      = Some (VDict {[ "self" :=
                VStr (url_for "bp_api_v2.get_user"
                        {[ "id" := FlicketUser.py_int (FlicketUser.id self) ]}) ]}) /\
    (FlicketUser.job_title self = None ->
     d !! "job_title" = Some (VStr "unknown")) /\
    (FlicketUser.job_title self = Some "" ->
     d !! "job_title" = Some (VStr "unknown")) /\
    (forall j, FlicketUser.job_title self = Some j -> j <> "" ->
     d !! "job_title" = Some (VStr j)) /\
    d !! "password" = None /\ d !! "token" = None /\
    dict_get2 (VDict d) "links" "password" = None /\
    dict_get2 (VDict d) "links" "token" = None /\
    (forall other,
       FlicketUser.id other = FlicketUser.id self ->
       FlicketUser.username other = FlicketUser.username self ->
       FlicketUser.name other = FlicketUser.name self ->
       FlicketUser.email other = FlicketUser.email self ->
       FlicketUser.job_title other = FlicketUser.job_title self ->
       FlicketUser.total_posts other = FlicketUser.total_posts self ->
       FlicketUser.to_dict url_for other = VDict d).
Proof.
  destruct (to_dict_keys url_for self) as (d & Hd & Hdom).
  exists d. split; [exact Hd|]. split; [exact Hdom|].
  injection Hd as <-.
  repeat match goal with |- _ /\ _ => split end; try reflexivity.
  - intros Hj. pose proof (to_dict_job_title url_for self) as Hjt.
    rewrite Hj in Hjt. exact Hjt.
  - intros Hj. pose proof (to_dict_job_title url_for self) as Hjt.
    rewrite Hj in Hjt. exact Hjt.
  - intros j Hj Hne. pose proof (to_dict_job_title url_for self) as Hjt.
    rewrite Hj in Hjt. simpl in Hjt.
    destruct (String.eqb_spec j ""); [contradiction | exact Hjt].
  - intros other Hid Hu Hn He Hj Ht. unfold FlicketUser.to_dict.
    now rewrite Hid, Hu, Hn, He, Hj, Ht.
Qed.

Lemma to_dict_spec_witness :
  dict_get (FlicketUser.to_dict Samples.plain_url_for Samples.alice) "job_title"
    = Some (VStr "Engineer").
Proof.
  destruct (to_dict_spec Samples.plain_url_for Samples.alice)
    as (d & Hd & _ & _ & _ & _ & _ & _ & _ & _ & _ & Hjob & _).
  rewrite Hd. apply (Hjob "Engineer" eq_refl). discriminate.
Defined.

(** C8 as stated fails for a stored empty job title: a value is present
    and the output is not that value. *)
Lemma to_dict_empty_job_title_not_literal :
  FlicketUser.job_title Samples.bob = Some "" /\
  dict_get (FlicketUser.to_dict Samples.plain_url_for Samples.bob) "job_title"
    = Some (VStr "unknown") /\
  dict_get (FlicketUser.to_dict Samples.plain_url_for Samples.bob) "job_title"
    <> Some (VStr "").
Proof.
  split; [reflexivity|]. split; [reflexivity|].
  rewrite to_dict_job_title. discriminate.
Qed.

(** C10: a stored empty job title is reported as ["unknown"], not as the
    stored empty string: the entry is the stored value when that value
    is true in a condition and ["unknown"] otherwise, whether the column
    is null or empty. *)
Theorem to_dict_empty_job_title url_for self :
  FlicketUser.job_title self = Some "" ->
  dict_get (FlicketUser.to_dict url_for self) "job_title"
    = Some (VStr "unknown") /\
  dict_get (FlicketUser.to_dict url_for self) "job_title"
    <> Some (FlicketUser.py_str (FlicketUser.job_title self)) /\
  (forall u,
     dict_get (FlicketUser.to_dict url_for u) "job_title"
       = Some (if truthy (FlicketUser.job_title u)
               then FlicketUser.py_str (FlicketUser.job_title u)
               else VStr "unknown")).
Proof.
  intros Hj. rewrite to_dict_job_title, Hj.
  split; [reflexivity|]. split; [discriminate|].
  intros u. apply to_dict_job_title.
Qed.

Lemma to_dict_empty_job_title_witness :
  dict_get (FlicketUser.to_dict Samples.plain_url_for Samples.bob) "job_title"
    = Some (VStr "unknown").
Proof.
  apply (to_dict_empty_job_title Samples.plain_url_for Samples.bob eq_refl).
Defined.

(** ** What the token operations raise *)

Lemma get_token_raises self expires_in now rt ex :
  FlicketUser.get_token self expires_in now rt = Raise ex ->
  (ex = TypeError /\ truthy (FlicketUser.token self) = true /\
   FlicketUser.token_expiration self = None) \/
  (ex = OverflowError /\ mints self now /\
   datetime_after now expires_in = Raise OverflowError).
Proof.
  intros Hcall.
  destruct (get_token_run_paths self expires_in now)
    as [(Hset & He)|[(Hset & e & He & Hlt)|[(Hm & e & Hadd)|(Hm & Hadd)]]].
  - rewrite (get_token_type_error _ _ _ _ Hset He) in Hcall.
    injection Hcall as <-. now left.
  - now rewrite (get_token_keep _ _ _ _ e Hset He Hlt) in Hcall.
  - now rewrite (get_token_mint _ _ _ _ e Hm Hadd) in Hcall.
  - rewrite (get_token_overflow _ _ _ _ Hm Hadd) in Hcall.
    injection Hcall as <-. now right.
Qed.

Lemma paired_not_type_error self :
  token_paired self ->
  ~ (truthy (FlicketUser.token self) = true /\
     FlicketUser.token_expiration self = None).
Proof.
  intros Hpaired [Hset He]. apply Hpaired; [|exact He].
  destruct (FlicketUser.token self); discriminate.
Qed.

Lemma get_token_returns self expires_in now rt e :
  token_paired self -> datetime_after now expires_in = Ok e ->
  returns (FlicketUser.get_token self expires_in now rt).
Proof.
  intros Hpaired Hadd. unfold returns.
  destruct (FlicketUser.get_token self expires_in now rt) as [r|ex] eqn:Hcall;
    [now exists r|].
  destruct (get_token_raises _ _ _ _ _ Hcall)
    as [(_ & Hset & He)|(_ & _ & Hraise)].
  - now destruct (paired_not_type_error _ Hpaired).
  - rewrite Hadd in Hraise. discriminate.
Qed.

Lemma check_token_returns db tok now :
  Forall token_paired (FlicketUser.flicket_users db) ->
  returns (FlicketUser.check_token db tok now).
Proof.
  intros Hall. unfold returns.
  destruct (first (FlicketUser.filter_by_token tok
                     (FlicketUser.flicket_users db))) as [user|] eqn:Hfirst.
  - destruct (first_filter_by_token_Some _ _ _ Hfirst) as [Hin Htok].
    rewrite Forall_forall in Hall. apply list_elem_of_In in Hin.
    destruct (FlicketUser.token_expiration user) as [e|] eqn:He.
    + rewrite (check_token_found _ _ _ _ _ Hfirst He). eauto.
    + exfalso. apply (Hall user Hin); [|exact He]. now rewrite Htok.
  - rewrite (check_token_not_found _ _ _ Hfirst). eauto.
Qed.

(** C9, as amended: when every row that holds a token also holds an
    expiration, [check_token] returns for every token string, a token
    that selects no row giving [None], and [get_token] never raises the
    [TypeError] of the date comparison: it raises only [OverflowError],
    and only when it mints with a [now + expires_in] that is no date of
    the calendar.  A row with a token and a null expiration makes the
    date comparison of both operations raise [TypeError]; so does
    [check_token(None)] when the first row without a token has no
    expiration, which the invariant allows. *)
Theorem token_operations_return :
  (forall db tok now,
     Forall token_paired (FlicketUser.flicket_users db) ->
     returns (FlicketUser.check_token db tok now)) /\
  (forall db tok now,
     (forall u, In u (FlicketUser.flicket_users db) ->
                FlicketUser.token u <> Some tok) ->
     FlicketUser.check_token db tok now = Ok None) /\
  (forall self expires_in now rt,
     token_paired self ->
     FlicketUser.get_token self expires_in now rt <> Raise TypeError /\
     (forall ex, FlicketUser.get_token self expires_in now rt = Raise ex ->
        ex = OverflowError /\ mints self now /\
        datetime_after now expires_in = Raise OverflowError) /\
     (forall e, datetime_after now expires_in = Ok e ->
        returns (FlicketUser.get_token self expires_in now rt))) /\
  (~ token_paired Samples.mallory /\
   (forall now,
      FlicketUser.check_token
        (FlicketUser.mkDatabase [Samples.mallory] [] []) "stray" now
        = Raise TypeError) /\
   (forall expires_in now rt,
      FlicketUser.get_token Samples.mallory expires_in now rt
        = Raise TypeError)) /\
  (forall db now user,
     first (FlicketUser.filter_by_token_null (FlicketUser.flicket_users db))
       = Some user ->
     FlicketUser.token_expiration user = None ->
     token_paired user /\
     FlicketUser.check_token_null db now = Raise TypeError).
Proof.
  split; [exact check_token_returns|].
  split.
  { intros db tok now Hno.
    apply check_token_not_found, first_filter_by_token_None, Hno. }
  split.
  { intros self expires_in now rt Hpaired.
    assert (Hex : forall ex,
              FlicketUser.get_token self expires_in now rt = Raise ex ->
              ex = OverflowError /\ mints self now /\
              datetime_after now expires_in = Raise OverflowError).
    { intros ex Hcall.
      destruct (get_token_raises _ _ _ _ _ Hcall)
        as [(_ & Hset & He)|Hover]; [|exact Hover].
      now destruct (paired_not_type_error _ Hpaired). }
    split; [|split; [exact Hex|]].
    - intros Hcall. now destruct (Hex _ Hcall).
    - intros e Hadd. now apply (get_token_returns _ _ _ _ e). }
  split.
  { split; [|split].
    - intros Hpaired. now apply Hpaired.
    - reflexivity.
    - intros expires_in now rt. now apply get_token_type_error. }
  intros db now user Hfirst He. split.
  - intros Htok. exfalso. apply Htok.
    unfold first, FlicketUser.filter_by_token_null in Hfirst.
    assert (Hin : In user (List.filter
              (fun u => bool_decide (FlicketUser.token u = None))
              (FlicketUser.flicket_users db))).
    { destruct (List.filter _ _); simplify_eq/=. now left. }
    apply filter_In in Hin as [_ Hnull].
    now apply bool_decide_eq_true_1 in Hnull.
  - unfold FlicketUser.check_token_null. now rewrite Hfirst, He.
Qed.

Lemma sample_tokens_paired :
  Forall token_paired (FlicketUser.flicket_users Samples.db).
Proof.
  repeat constructor; intros Htok; solve [discriminate | now destruct Htok].
Qed.

Lemma token_operations_return_witness :
  returns (FlicketUser.check_token Samples.db Samples.alice_token Samples.t0) /\
  returns (FlicketUser.get_token Samples.carol 36000 Samples.t0 Samples.rt).
Proof.
  destruct token_operations_return as (Hcheck & _ & Hget & _).
  split.
  - apply Hcheck, sample_tokens_paired.
  - assert (Hpaired : token_paired Samples.carol)
      by (intros Htok; now destruct Htok).
    apply (proj2 (proj2 (Hget Samples.carol 36000 Samples.t0 Samples.rt
                           Hpaired))
             (Samples.t0 + 36000000000)).
    reflexivity.
Defined.

(** C9 as stated fails although the invariant holds: alice holds a
    token with an expiration, the token has run out, and [get_token] with
    an [expires_in] that leads out of the calendar raises. *)
Lemma get_token_raises_under_invariant :
  let now := Samples.t0 + timedelta_seconds 1000 in
  Forall token_paired (FlicketUser.flicket_users Samples.db) /\
  token_paired Samples.alice /\
  FlicketUser.get_token Samples.alice Samples.far_future now Samples.rt
    = Raise OverflowError /\
  ~ returns
      (FlicketUser.get_token Samples.alice Samples.far_future now Samples.rt).
Proof.
  cbv zeta. split; [exact sample_tokens_paired|].
  split; [intros _; discriminate|]. split; [reflexivity|].
  intros [r Hr]. vm_compute in Hr. discriminate.
Qed.

(** * Further properties of the module *)

(** ** Shape of a minted token *)

Lemma b64_char_in_alphabet (n : N) : (n < 64)%N -> In (b64_char n) b64_alphabet.
Proof.
  intros Hn. unfold b64_char. apply nth_In.
  change (length b64_alphabet) with 64%nat. lia.
Qed.

Lemma b64encode_whole_groups (bs : bytes) :
  (length bs mod 3 = 0)%nat ->
  length (b64encode bs) = (4 * (length bs / 3))%nat /\
  forall c, In c (b64encode bs) -> In c b64_alphabet.
Proof.
  induction bs as [|a|a b|a b c l IH] using list_ind_by_3; intros Hmod.
  - split; [reflexivity | intros c []].
  - discriminate.
  - discriminate.
  - assert (Hl : (length l mod 3 = 0)%nat).
    { rewrite <- (Nat.Div0.mod_add (length l) 1 3).
      replace (length l + 1 * 3)%nat with (length (a :: b :: c :: l))
        by (simpl; lia).
      exact Hmod. }
    destruct (IH Hl) as [IHlen IHin]. split.
    + replace (length (a :: b :: c :: l)) with (length l + 1 * 3)%nat
        by (simpl; lia).
      rewrite Nat.div_add by discriminate.
      change (length (b64encode (a :: b :: c :: l)))
        with (4 + length (b64encode l))%nat. lia.
    + intros x Hx. simpl in Hx.
      destruct Hx as [<-|[<-|[<-|[<-|Hx]]]];
        try (apply b64_char_in_alphabet, sextet_lt).
      now apply IHin.
Qed.

(** X1: whatever the random source yields, a minted token has exactly
    32 characters, all of them symbols of the base64 alphabet (no [=]
    padding), so it is non-empty and fills the 32-character [token]
    column exactly. *)
Theorem fresh_token_shape (src : Entropy) :
  String.length (fresh_token src) = 32%nat /\
  (forall c, In c (encode_utf8 (fresh_token src)) -> In c b64_alphabet) /\
  ~ In b64_pad (encode_utf8 (fresh_token src)) /\
  truthy (Some (fresh_token src)) = true.
Proof.
  assert (Hin : forall c, In c (encode_utf8 (fresh_token src)) ->
                          In c b64_alphabet).
  { unfold fresh_token, encode_utf8, decode_utf8.
    rewrite list_byte_of_string_of_list_byte.
    apply b64encode_whole_groups. now rewrite urandom_length. }
  split; [reflexivity|]. split; [exact Hin|]. split; [|reflexivity].
  intros Hpad. apply Hin in Hpad. revert Hpad.
  apply (bool_decide_unpack _). vm_compute. exact I.
Qed.

(** X2: two random sources give the same minted token exactly when
    their next 24 bytes agree: distinct draws never collapse to one
    token. *)
Theorem fresh_token_distinct (src src' : Entropy) :
  fresh_token src = fresh_token src' <->
  forall i, (i < 24)%nat -> src i = src' i.
Proof.
  unfold fresh_token at 2.
  rewrite fresh_token_inj by apply urandom_length.
  change (map src (seq 0 24) = map src' (seq 0 24) <->
          forall i, (i < 24)%nat -> src i = src' i).
  split.
  - intros Heq i Hi. apply (proj1 map_ext_in_iff Heq), in_seq. lia.
  - intros Hall. apply map_ext_in. intros i Hi. apply Hall.
    apply in_seq in Hi. lia.
Qed.

(** ** The token operations, call by call *)

(** X3: [get_token] raises in two situations and no other: with the
    [TypeError] of the date comparison exactly when the object holds a
    non-empty token together with a null expiration (an empty-string
    token with a null expiration does not raise), and with
    [OverflowError] exactly when it mints and [now + expires_in] is no
    date of the calendar.  The call that raises [OverflowError] leaves
    the object with the new token already assigned and the old
    expiration, the random bytes drawn and nothing handed to the
    session. *)
Theorem get_token_raises_iff self expires_in now rt :
  (FlicketUser.get_token self expires_in now rt = Raise TypeError <->
   truthy (FlicketUser.token self) = true /\
   FlicketUser.token_expiration self = None) /\
  (FlicketUser.get_token self expires_in now rt = Raise OverflowError <->
   mints self now /\ datetime_after now expires_in = Raise OverflowError) /\
  (forall ex, FlicketUser.get_token self expires_in now rt = Raise ex ->
              ex = TypeError \/ ex = OverflowError) /\
  (FlicketUser.get_token self expires_in now rt = Raise OverflowError ->
   FlicketUser.get_token_run self expires_in now rt
     = (Raise OverflowError,
        FlicketUser.set_token
          (Some (fresh_token (FlicketUser.entropy rt))) self,
        FlicketUser.mkRuntime (snd (os_urandom 24 (FlicketUser.entropy rt)))
          (FlicketUser.session rt))).
Proof.
  assert (Hover : FlicketUser.get_token self expires_in now rt
                    = Raise OverflowError ->
                  mints self now /\
                  datetime_after now expires_in = Raise OverflowError).
  { intros Hcall.
    destruct (get_token_raises _ _ _ _ _ Hcall) as [([=] & _)|(_ & Hm)].
    exact Hm. }
  split; [|split; [|split]].
  - split.
    + intros Hcall.
      destruct (get_token_raises _ _ _ _ _ Hcall) as [(_ & Hs)|([=] & _)].
      exact Hs.
    + intros [Hset He]. now apply get_token_type_error.
  - split; [exact Hover|]. intros [Hm Hadd]. now apply get_token_overflow.
  - intros ex Hcall.
    destruct (get_token_raises _ _ _ _ _ Hcall) as [(-> & _)|(-> & _)]; auto.
  - intros Hcall. destruct (Hover Hcall) as [Hm Hadd].
    now apply get_token_run_overflow.
Qed.

(** X4: a successful [get_token] changes no column of the object other
    than [token] and [token_expiration]; either nothing changed at all
    (object, session and random source), or exactly 24 bytes were drawn
    and exactly the returned object was added to the session. *)
Theorem get_token_frame self expires_in now rt r self' rt' :
  FlicketUser.get_token self expires_in now rt = Ok (r, self', rt') ->
  (FlicketUser.id self' = FlicketUser.id self /\
   FlicketUser.username self' = FlicketUser.username self /\
   FlicketUser.name self' = FlicketUser.name self /\
   FlicketUser.password self' = FlicketUser.password self /\
   FlicketUser.email self' = FlicketUser.email self /\
   FlicketUser.date_added self' = FlicketUser.date_added self /\
   FlicketUser.date_modified self' = FlicketUser.date_modified self /\
   FlicketUser.job_title self' = FlicketUser.job_title self /\
   FlicketUser.avatar self' = FlicketUser.avatar self /\
   FlicketUser.total_posts self' = FlicketUser.total_posts self) /\
  ((self' = self /\ rt' = rt) \/
   (FlicketUser.session rt' = self' :: FlicketUser.session rt /\
    forall i, FlicketUser.entropy rt' i = FlicketUser.entropy rt (24 + i)%nat)).
Proof.
  intros Hcall.
  destruct (get_token_cases _ _ _ _ _ _ _ Hcall)
    as [(_ & _ & _ & -> & ->)|(_ & e & _ & _ & -> & ->)].
  - split; [repeat split | now left].
  - split; [repeat split | right; split; reflexivity].
Qed.

Lemma get_token_frame_witness :
  exists r self' rt',
    FlicketUser.get_token Samples.carol 36000 Samples.t0 Samples.rt
      = Ok (r, self', rt') /\
    FlicketUser.password self' = FlicketUser.password Samples.carol.
Proof.
  eexists _, _, _. split; [reflexivity|].
  apply (get_token_frame Samples.carol 36000 Samples.t0 Samples.rt _ _ _ eq_refl).
Defined.

(** X5: after a successful [get_token] the value returned is the token
    stored on the object, that token is non-empty and comes with an
    expiration (the date [now + expires_in], inside the calendar, when
    minted; more than a minute ahead when kept), so the object meets the
    pairing invariant and a later [get_token] cannot raise [TypeError]:
    it returns whenever its own [now + expires_in] is a date of the
    calendar. *)
Theorem get_token_postcondition self expires_in now rt r self' rt' :
  FlicketUser.get_token self expires_in now rt = Ok (r, self', rt') ->
  r = FlicketUser.token self' /\
  truthy (FlicketUser.token self') = true /\
  (exists e, FlicketUser.token_expiration self' = Some e /\
     ((e = now + expires_in * 1000000 /\ datetime_min <= e <= datetime_max)
      \/ now + 60000000 < e)) /\
  token_paired self' /\
  (forall x now' rt2,
     FlicketUser.get_token self' x now' rt2 <> Raise TypeError) /\
  (forall x now' rt2 e',
     datetime_after now' x = Ok e' ->
     returns (FlicketUser.get_token self' x now' rt2)).
Proof.
  intros Hcall.
  assert (Hpost : r = FlicketUser.token self' /\
                  truthy (FlicketUser.token self') = true /\
                  exists e, FlicketUser.token_expiration self' = Some e /\
                    ((e = now + expires_in * 1000000 /\
                      datetime_min <= e <= datetime_max)
                     \/ now + 60000000 < e)).
  { destruct (get_token_cases _ _ _ _ _ _ _ Hcall)
      as [(Hset & (e & He & Hlt) & -> & -> & _)|(_ & e & Hadd & -> & -> & _)].
    - repeat split; [exact Hset|]. exists e. split; [exact He | now right].
    - repeat split. exists e. split; [reflexivity|]. left.
      apply datetime_after_Ok in Hadd as (-> & _ & Hrange). now split. }
  destruct Hpost as (Hr & Hset & e & He & Hrange).
  assert (Hpaired : token_paired self') by (intros _; now rewrite He).
  split; [exact Hr|]. split; [exact Hset|].
  split; [exists e; now split|]. split; [exact Hpaired|]. split.
  - intros x now' rt2 Hraise.
    destruct (get_token_raises _ _ _ _ _ Hraise) as [(_ & Hs)|([=] & _)].
    now destruct (paired_not_type_error _ Hpaired).
  - intros x now' rt2 e' Hadd. now apply (get_token_returns _ _ _ _ e').
Qed.

Lemma get_token_postcondition_witness :
  exists r self' rt',
    FlicketUser.get_token Samples.alice 36000 Samples.t0 Samples.rt
      = Ok (r, self', rt') /\
    r = FlicketUser.token self' /\ token_paired self'.
Proof.
  eexists _, _, _. split; [reflexivity|].
  destruct (get_token_postcondition Samples.alice 36000 Samples.t0 Samples.rt
              _ _ _ eq_refl) as (Hr & _ & _ & Hp & _).
  split; [exact Hr | exact Hp].
Defined.

(** X6: issue and validate.  When the object in row [i] obtains a token
    from [get_token], is written back by the flush before the next
    query and tokens stay unique, [check_token] with the returned token
    gives the written row (the object with its [date_modified] stamped
    when the call changed it) at every instant up to and including the
    stored expiration and [None] after it; with [expires_in >= 0] the
    token validates at the time of issue, and a token minted with a
    negative [expires_in] validates at no later time. *)
Theorem issued_token_validates db i self expires_in now rt r self' rt' stamp :
  FlicketUser.flicket_users db !! i = Some self ->
  FlicketUser.get_token self expires_in now rt = Ok (r, self', rt') ->
  tokens_unique
    (FlicketUser.flicket_users (FlicketUser.store i self' stamp db)) ->
  exists tok e row,
    r = Some tok /\
    FlicketUser.flicket_users (FlicketUser.store i self' stamp db) !! i
      = Some row /\
    row = written self self' stamp /\
    FlicketUser.touch stamp row = FlicketUser.touch stamp self' /\
    FlicketUser.token row = Some tok /\
    FlicketUser.token_expiration row = Some e /\
    (forall now',
       FlicketUser.check_token (FlicketUser.store i self' stamp db) tok now'
         = Ok (if Z.ltb e now' then None else Some row)) /\
    (0 <= expires_in ->
     FlicketUser.check_token (FlicketUser.store i self' stamp db) tok now
       = Ok (Some row)) /\
    (self' <> self -> expires_in < 0 -> forall now', now <= now' ->
     FlicketUser.check_token (FlicketUser.store i self' stamp db) tok now'
       = Ok None).
Proof.
  intros Hi Hcall Huniq.
  assert (Hshape : exists tok e,
            r = Some tok /\ FlicketUser.token self' = Some tok /\
            FlicketUser.token_expiration self' = Some e /\
            (0 <= expires_in -> now <= e) /\
            (self' <> self -> e = now + expires_in * 1000000)).
  { destruct (get_token_cases _ _ _ _ _ _ _ Hcall)
      as [(Hset & (e & He & Hgt) & -> & -> & _)|(_ & e & Hadd & -> & -> & _)].
    - destruct (FlicketUser.token self) as [tok|] eqn:Htok; [|discriminate].
      exists tok, e. repeat split; try assumption.
      + unfold timedelta_seconds in Hgt. lia.
      + intros Hne. now destruct Hne.
    - apply datetime_after_Ok in Hadd as (-> & _).
      eexists _, _. repeat split. lia. }
  destruct Hshape as (tok & e & -> & Htok & He & Hnow & Hexp).
  pose proof (store_lookup db i self self' stamp Hi) as Hrow.
  assert (Hcheck : forall now',
            FlicketUser.check_token (FlicketUser.store i self' stamp db) tok now'
              = Ok (if Z.ltb e now' then None
                    else Some (written self self' stamp))).
  { intros now'. apply check_token_found.
    - apply (first_filter_by_token_unique _ i); try assumption.
      now rewrite written_token.
    - now rewrite written_token_expiration. }
  exists tok, e, (written self self' stamp).
  split; [reflexivity|]. split; [exact Hrow|]. split; [reflexivity|].
  split; [unfold written; now destruct (bool_decide _)|].
  split; [now rewrite written_token|].
  split; [now rewrite written_token_expiration|].
  split; [exact Hcheck|]. split.
  - intros Hpos. rewrite Hcheck.
    destruct (Z.ltb_spec e now); [specialize (Hnow Hpos); lia | reflexivity].
  - intros Hne Hneg now' Hle. rewrite Hcheck.
    destruct (Z.ltb_spec e now'); [reflexivity|]. specialize (Hexp Hne). lia.
Qed.

Lemma sample_tokens_unique_after_issue :
  tokens_unique
    (FlicketUser.flicket_users
       (FlicketUser.store 2
          (FlicketUser.set_token_expiration
             (Some (Samples.t0 + timedelta_seconds 36000))
             (FlicketUser.set_token
                (Some (fresh_token Samples.stuck_entropy)) Samples.dave))
          (Samples.t0 + 3) Samples.db)).
Proof. apply (bool_decide_unpack _). vm_compute. exact I. Qed.

Lemma issued_token_validates_witness :
  exists tok row,
    FlicketUser.date_modified row = Some (Samples.t0 + 3) /\
    FlicketUser.check_token
      (FlicketUser.store 2
         (FlicketUser.set_token_expiration
            (Some (Samples.t0 + timedelta_seconds 36000))
            (FlicketUser.set_token
               (Some (fresh_token Samples.stuck_entropy)) Samples.dave))
         (Samples.t0 + 3) Samples.db)
      tok Samples.t0 = Ok (Some row).
Proof.
  destruct (issued_token_validates Samples.db 2 Samples.dave 36000 Samples.t0
              Samples.rt _ _ _ (Samples.t0 + 3) eq_refl eq_refl
              sample_tokens_unique_after_issue)
    as (tok & e & row & _ & _ & Hrow & _ & _ & _ & _ & Hnow & _).
  exists tok, row. split; [now rewrite Hrow|]. apply Hnow. lia.
Defined.

(** X7: with [expires_in] of 60 seconds or less a minted token is never
    handed out twice: when both calls have a [now + expires_in] inside
    the calendar, the call after a minting call, at the same or a later
    time, mints again, from the 24 bytes that follow those of the first
    call. *)
Theorem get_token_short_lifetime_remints self expires_in now rt x' now' e1 e2 :
  FlicketUser.token self = None \/
  (exists e, FlicketUser.token_expiration self = Some e /\
             e <= now + timedelta_seconds 60) ->
  expires_in <= 60 -> now <= now' ->
  datetime_after now expires_in = Ok e1 ->
  datetime_after now' x' = Ok e2 ->
  exists self1 rt1 self2 rt2,
    FlicketUser.get_token self expires_in now rt
      = Ok (Some (fresh_token (FlicketUser.entropy rt)), self1, rt1) /\
    FlicketUser.get_token self1 x' now' rt1
      = Ok (Some (fresh_token (fun i => FlicketUser.entropy rt (24 + i)%nat)),
            self2, rt2) /\
    FlicketUser.token_expiration self1 = Some e1 /\
    FlicketUser.token_expiration self2 = Some e2 /\
    (forall i, FlicketUser.entropy rt2 i = FlicketUser.entropy rt (48 + i)%nat).
Proof.
  intros Hcase Hshort Hle Hadd1 Hadd2.
  assert (Hm : mints self now).
  { destruct Hcase as [Hnone|Hexp]; [left | now right]. now rewrite Hnone. }
  pose (self1 := FlicketUser.set_token_expiration (Some e1)
                   (FlicketUser.set_token
                      (Some (fresh_token (FlicketUser.entropy rt))) self)).
  pose (rt1 := FlicketUser.mkRuntime
                 (snd (os_urandom 24 (FlicketUser.entropy rt)))
                 (self1 :: FlicketUser.session rt)).
  assert (Hm1 : mints self1 now').
  { right. exists e1. split; [reflexivity|].
    apply datetime_after_Ok in Hadd1 as (-> & _).
    unfold timedelta_seconds. lia. }
  exists self1, rt1. eexists _, _. split; [|split; [|split; [|split]]].
  - apply (get_token_mint _ _ _ _ e1 Hm Hadd1).
  - apply (get_token_mint self1 x' now' rt1 e2 Hm1 Hadd2).
  - reflexivity.
  - reflexivity.
  - intros i. simpl. f_equal.
Qed.

Lemma get_token_short_lifetime_remints_witness :
  exists self1 rt1 self2 rt2,
    FlicketUser.get_token Samples.carol 60 Samples.t0 Samples.rt
      = Ok (Some (fresh_token Samples.stuck_entropy), self1, rt1) /\
    FlicketUser.get_token self1 60 Samples.t0 rt1
      = Ok (Some (fresh_token Samples.stuck_entropy), self2, rt2).
Proof.
  destruct (get_token_short_lifetime_remints Samples.carol 60 Samples.t0
              Samples.rt 60 Samples.t0 (Samples.t0 + 60000000)
              (Samples.t0 + 60000000) (or_introl eq_refl)
              (Z.le_refl 60) (Z.le_refl Samples.t0) eq_refl eq_refl)
    as (self1 & rt1 & self2 & rt2 & H1 & H2 & _).
  exists self1, rt1, self2, rt2. split; [exact H1 | exact H2].
Defined.

(** X8: [revoke_token] works on any object, also one without a token or
    one that broke the pairing invariant: it leaves the token column as
    it is and leaves the object with a non-null expiration, so the
    pairing invariant holds and the next [get_token] cannot raise
    [TypeError]; called at or after the revocation with a
    [now + expires_in] inside the calendar, that [get_token] mints.  A
    second revocation simply overwrites the first. *)
Theorem revoke_token_total self now :
  FlicketUser.token (FlicketUser.revoke_token self now)
    = FlicketUser.token self /\
  token_paired (FlicketUser.revoke_token self now) /\
  (forall x now' rt,
     FlicketUser.get_token (FlicketUser.revoke_token self now) x now' rt
       <> Raise TypeError) /\
  (forall x now' rt e, now <= now' -> datetime_after now' x = Ok e ->
     exists self2 rt2,
       FlicketUser.get_token (FlicketUser.revoke_token self now) x now' rt
         = Ok (Some (fresh_token (FlicketUser.entropy rt)), self2, rt2)) /\
  (forall later,
     FlicketUser.revoke_token (FlicketUser.revoke_token self now) later
       = FlicketUser.revoke_token self later).
Proof.
  assert (Hpaired : token_paired (FlicketUser.revoke_token self now))
    by (intros _; discriminate).
  split; [reflexivity|]. split; [exact Hpaired|]. split; [|split].
  - intros x now' rt Hraise.
    destruct (get_token_raises _ _ _ _ _ Hraise) as [(_ & Hs)|([=] & _)].
    now destruct (paired_not_type_error _ Hpaired).
  - intros x now' rt e Hle Hadd. eexists _, _.
    apply (get_token_mint _ _ _ _ e); [|exact Hadd]. right.
    eexists. split; [reflexivity|]. unfold timedelta_seconds. lia.
  - reflexivity.
Qed.

(** X23: a [get_token] that raises [OverflowError] on an object without
    expiration breaks the pairing invariant: the object is left with a
    token and no expiration, every later [get_token] on it raises
    [TypeError], and [check_token] raises [TypeError] for that token once
    the object is its row; [revoke_token] restores the invariant. *)
Theorem get_token_overflow_breaks_pairing self expires_in now rt :
  FlicketUser.token_expiration self = None ->
  FlicketUser.get_token self expires_in now rt = Raise OverflowError ->
  let left_behind :=
    FlicketUser.set_token (Some (fresh_token (FlicketUser.entropy rt))) self in
  snd (fst (FlicketUser.get_token_run self expires_in now rt)) = left_behind /\
  ~ token_paired left_behind /\
  (forall x now' rt2,
     FlicketUser.get_token left_behind x now' rt2 = Raise TypeError) /\
  (forall now',
     FlicketUser.check_token (FlicketUser.mkDatabase [left_behind] [] [])
       (fresh_token (FlicketUser.entropy rt)) now' = Raise TypeError) /\
  (forall at_time, token_paired (FlicketUser.revoke_token left_behind at_time)).
Proof.
  intros He Hcall left_behind.
  destruct (get_token_raises _ _ _ _ _ Hcall) as [([=] & _)|(_ & Hm & Hadd)].
  split; [now rewrite (get_token_run_overflow _ _ _ _ Hm Hadd)|].
  split; [|split; [|split]].
  - intros Hpaired. apply Hpaired; [discriminate | exact He].
  - intros x now' rt2. apply get_token_type_error;
      [apply fresh_token_truthy | exact He].
  - intros now'. apply (check_token_null_expiration _ _ _ left_behind).
    + simpl. now rewrite bool_decide_eq_true_2.
    + exact He.
  - intros at_time _. discriminate.
Qed.

Lemma get_token_overflow_breaks_pairing_witness :
  FlicketUser.get_token
    (FlicketUser.set_token (Some (fresh_token Samples.stuck_entropy))
       Samples.carol)
    36000 Samples.t0 Samples.rt = Raise TypeError.
Proof.
  apply (get_token_overflow_breaks_pairing Samples.carol Samples.far_future
           Samples.t0 Samples.rt eq_refl eq_refl).
Defined.

(** ** Token lookup *)

(** X9: without any assumption on the table (duplicates allowed),
    whatever [check_token] returns is a stored row that holds exactly the
    presented token and whose expiration is not in the past: it never
    authenticates with an expired token or as a user that holds another
    token. *)
Theorem check_token_sound db tok now u :
  FlicketUser.check_token db tok now = Ok (Some u) ->
  In u (FlicketUser.flicket_users db) /\
  FlicketUser.token u = Some tok /\
  exists e, FlicketUser.token_expiration u = Some e /\ now <= e.
Proof.
  intros Hok.
  destruct (first (FlicketUser.filter_by_token tok
                     (FlicketUser.flicket_users db))) as [user|] eqn:Hfirst.
  - destruct (FlicketUser.token_expiration user) as [e|] eqn:He.
    + rewrite (check_token_found _ _ _ _ _ Hfirst He) in Hok.
      destruct (Z.ltb_spec e now); [discriminate|]. injection Hok as <-.
      apply first_filter_by_token_Some in Hfirst as [Hin Htok].
      repeat split; try assumption. now exists e.
    + now rewrite (check_token_null_expiration _ _ _ _ Hfirst He) in Hok.
  - now rewrite (check_token_not_found _ _ _ Hfirst) in Hok.
Qed.

Lemma check_token_sound_witness :
  FlicketUser.token Samples.alice = Some Samples.alice_token.
Proof.
  apply (check_token_sound Samples.db Samples.alice_token Samples.t0
           Samples.alice eq_refl).
Defined.

(** X10: on a fixed table validity only shrinks with time: a token
    accepted at some instant is accepted, for the same user, at every
    earlier instant, and a token answered with [None] stays answered with
    [None] at every later instant. *)
Theorem check_token_monotone db tok now now' :
  now' <= now ->
  (forall u, FlicketUser.check_token db tok now = Ok (Some u) ->
             FlicketUser.check_token db tok now' = Ok (Some u)) /\
  (FlicketUser.check_token db tok now' = Ok None ->
   FlicketUser.check_token db tok now = Ok None).
Proof.
  intros Hle.
  destruct (first (FlicketUser.filter_by_token tok
                     (FlicketUser.flicket_users db))) as [user|] eqn:Hfirst.
  - destruct (FlicketUser.token_expiration user) as [e|] eqn:He.
    + rewrite !(check_token_found _ _ _ _ _ Hfirst He).
      destruct (Z.ltb_spec e now), (Z.ltb_spec e now'); split;
        try discriminate; try reflexivity; try lia; auto.
    + rewrite !(check_token_null_expiration _ _ _ _ Hfirst He).
      split; [intros u|]; discriminate.
  - rewrite !(check_token_not_found _ _ _ Hfirst).
    split; [intros u|]; [discriminate | reflexivity].
Qed.

Lemma check_token_monotone_witness :
  FlicketUser.check_token Samples.db Samples.alice_token (Samples.t0 - 5)
    = Ok (Some Samples.alice).
Proof.
  assert (Hle : Samples.t0 - 5 <= Samples.t0) by lia.
  apply (proj1 (check_token_monotone Samples.db Samples.alice_token
                  Samples.t0 (Samples.t0 - 5) Hle)).
  reflexivity.
Defined.

(** ** Objects through their life *)

Lemma get_token_run_object self expires_in now rt outcome self' rt' :
  FlicketUser.get_token_run self expires_in now rt = (outcome, self', rt') ->
  self' = self \/
  self' = FlicketUser.set_token
            (Some (fresh_token (FlicketUser.entropy rt))) self \/
  exists e,
    self' = FlicketUser.set_token_expiration (Some e)
              (FlicketUser.set_token
                 (Some (fresh_token (FlicketUser.entropy rt))) self).
Proof.
  intros Hrun.
  destruct (get_token_run_paths self expires_in now)
    as [(Hset & He)|[(Hset & e & He & Hlt)|[(Hm & e & Hadd)|(Hm & Hadd)]]].
  - rewrite (get_token_run_type_error _ _ _ _ Hset He) in Hrun.
    injection Hrun as _ <- _. now left.
  - rewrite (get_token_run_keep _ _ _ _ e Hset He Hlt) in Hrun.
    injection Hrun as _ <- _. now left.
  - rewrite (get_token_run_mint _ _ _ _ e Hm Hadd) in Hrun.
    injection Hrun as _ <- _. right. right. now exists e.
  - rewrite (get_token_run_overflow _ _ _ _ Hm Hadd) in Hrun.
    injection Hrun as _ <- _. right. now left.
Qed.

(** X11: every state an object reaches from the constructor through
    [get_token] calls, whether they return or raise, and [revoke_token]
    calls still has the constructor's columns (username, name, password,
    email, date added, job title) and a null id, and has a token column
    that is null or 32 characters long. *)
Theorem lifecycle_invariant username name email password date_added
    job_title u :
  evolves (FlicketUser.init username name email password date_added
             job_title) u ->
  token_shape u /\
  FlicketUser.id u = None /\
  FlicketUser.username u = username /\ FlicketUser.name u = name /\
  FlicketUser.email u = email /\ FlicketUser.password u = password /\
  FlicketUser.date_added u = date_added /\
  FlicketUser.job_title u = job_title.
Proof.
  intros Hlife.
  induction Hlife as [| self x now rt r self' rt' _ IH Hcall
                      | self now _ IH].
  - repeat split.
  - destruct IH as (Hs & Hcols).
    destruct (get_token_run_object _ _ _ _ _ _ _ Hcall)
      as [->|[->|(e & ->)]].
    + now split.
    + split; [reflexivity | exact Hcols].
    + split; [reflexivity | exact Hcols].
  - destruct IH as (Hs & Hcols). split; [exact Hs | exact Hcols].
Qed.

Lemma lifecycle_invariant_witness :
  token_shape
    (FlicketUser.revoke_token
       (FlicketUser.set_token (Some (fresh_token Samples.stuck_entropy))
          Samples.carol)
       (Samples.t0 + 7)).
Proof.
  apply (lifecycle_invariant "carol" "Carol C." "carol@example.org"
           (encode_utf8 "s3cret") Samples.t0 None).
  apply evolves_revoke_token.
  apply (evolves_get_token _ Samples.carol Samples.far_future Samples.t0
           Samples.rt (Raise OverflowError) _
           (FlicketUser.mkRuntime
              (snd (os_urandom 24 Samples.stuck_entropy)) [])).
  - apply evolves_refl.
  - reflexivity.
Defined.

(** ** Password check and admin test: when they raise *)

(** X12: [check_password] raises exactly when a row has the username
    and the hashing primitive raises on that row's stored digest, and it
    raises that same exception; it never turns such a failure into
    [False], and with no matching row it never raises. *)
Theorem check_password_raises_iff hashpw db self pw e :
  FlicketUser.check_password hashpw db self pw = Raise e <->
  exists row,
    first (FlicketUser.filter_by_username (FlicketUser.username self)
             (FlicketUser.flicket_users db)) = Some row /\
    hashpw (encode_utf8 pw) (FlicketUser.password row) = Raise e.
Proof.
  destruct (first (FlicketUser.filter_by_username (FlicketUser.username self)
                     (FlicketUser.flicket_users db))) as [row|] eqn:Hfirst.
  - rewrite (check_password_row _ _ _ _ _ Hfirst). split.
    + intros Hraise. exists row. split; [reflexivity|].
      destruct (hashpw _ _); [discriminate | now injection Hraise as ->].
    + intros (row' & [= <-] & ->). reflexivity.
  - rewrite check_password_no_row.
    + split; [discriminate | intros (row & [=] & _)].
    + unfold first in Hfirst.
      now destruct (FlicketUser.filter_by_username _ _).
Qed.

Lemma filter_by_id_None (rows : list FlicketUser.t) v :
  first (FlicketUser.filter_by_id v rows) = None <->
  forall row, In row rows -> FlicketUser.id row <> v.
Proof.
  unfold first, FlicketUser.filter_by_id.
  induction rows as [|r rows IH]; simpl.
  - split; [intros _ row [] | reflexivity].
  - destruct (bool_decide_reflect (FlicketUser.id r = v)) as [Heq|Hne]; simpl.
    + split; [discriminate|]. intros Hall. now destruct (Hall r (or_introl eq_refl)).
    + rewrite IH. split.
      * intros Hall row [<-|Hin]; [exact Hne | now apply Hall].
      * intros Hall row Hin. apply Hall. now right.
Qed.

(** X13: [is_admin] raises exactly when no stored row has the id of the
    object, and the exception is the [AttributeError] of reading the
    groups of [None]; in particular it raises for every object fresh from
    the constructor as long as all stored rows have an id. *)
Theorem is_admin_raises_iff admin db self :
  (FlicketUser.is_admin admin db self = Raise AttributeError <->
   forall row, In row (FlicketUser.flicket_users db) ->
               FlicketUser.id row <> FlicketUser.id self) /\
  (forall e, FlicketUser.is_admin admin db self = Raise e ->
             e = AttributeError) /\
  (forall username name email password date_added job_title,
     (forall row, In row (FlicketUser.flicket_users db) ->
                  FlicketUser.id row <> None) ->
     FlicketUser.is_admin admin db
       (FlicketUser.init username name email password date_added job_title)
       = Raise AttributeError).
Proof.
  assert (Hiff : forall u,
            FlicketUser.is_admin admin db u = Raise AttributeError <->
            forall row, In row (FlicketUser.flicket_users db) ->
                        FlicketUser.id row <> FlicketUser.id u).
  { intros u. rewrite <- filter_by_id_None. unfold FlicketUser.is_admin.
    destruct (first _); split; try discriminate; reflexivity. }
  split; [apply Hiff|]. split.
  - intros e. unfold FlicketUser.is_admin.
    destruct (first _); [discriminate | now intros [= <-]].
  - intros username name email password date_added job_title Hids.
    apply Hiff. exact Hids.
Qed.

(** X14: granting never revokes: if a database has the same user rows
    and at least the groups and the association rows of another, every
    user who is admin in the smaller one is admin in the larger one.
    The answer depends on which groups are associated, not on the order
    or multiplicity of the association rows. *)
Theorem is_admin_monotone admin db db' self :
  FlicketUser.flicket_users db' = FlicketUser.flicket_users db ->
  (forall g, In g (FlicketUser.flicket_group db) ->
             In g (FlicketUser.flicket_group db')) ->
  (forall l, In l (FlicketUser.flicket_groups db) ->
             In l (FlicketUser.flicket_groups db')) ->
  FlicketUser.is_admin admin db self = Ok (VBool true) ->
  FlicketUser.is_admin admin db' self = Ok (VBool true).
Proof.
  intros Husers Hgroups Hlinks. unfold FlicketUser.is_admin. rewrite Husers.
  destruct (first _) as [row|]; [|discriminate].
  intros [= Htrue]. f_equal.
  assert (Hb : py_bool (FlicketUser.is_admin_loop admin
                          (FlicketUser.user_groups db' row)) = true).
  { apply is_admin_loop_true.
    assert (Hb : py_bool (FlicketUser.is_admin_loop admin
                            (FlicketUser.user_groups db row)) = true)
      by now rewrite Htrue.
    apply is_admin_loop_true in Hb as (g & Hg & Hname).
    exists g. split; [|exact Hname].
    apply user_groups_associated.
    apply user_groups_associated in Hg as (uid & Hid & Hin & Hlink).
    exists uid. auto. }
  destruct (is_admin_loop_values admin (FlicketUser.user_groups db' row))
    as [Hv|Hv]; [exact Hv|].
  rewrite Hv in Hb. discriminate.
Qed.

Lemma is_admin_monotone_witness :
  FlicketUser.is_admin Samples.admin_name
    (FlicketUser.mkDatabase (FlicketUser.flicket_users Samples.db)
       (FlicketUser.flicket_group Samples.db)
       ((6, 10) :: FlicketUser.flicket_groups Samples.db))
    Samples.erin = Ok (VBool true).
Proof.
  apply (is_admin_monotone Samples.admin_name Samples.db).
  - reflexivity.
  - intros g Hg. exact Hg.
  - intros l Hl. right. exact Hl.
  - reflexivity.
Defined.

(** ** The groups of a user, in order *)

Lemma insert_by_name_Permutation g gs :
  Permutation (g :: gs) (FlicketGroup.insert_by_name g gs).
Proof.
  induction gs as [|h gs IH]; simpl; [reflexivity|].
  destruct (String.leb _ _); [reflexivity|].
  rewrite perm_swap. now apply perm_skip.
Qed.

Lemma insert_by_name_Sorted g gs :
  Sorted name_le gs -> Sorted name_le (FlicketGroup.insert_by_name g gs).
Proof.
  induction gs as [|h gs IH]; intros Hs; simpl.
  - repeat constructor.
  - destruct (String.leb (FlicketGroup.group_name g)
                (FlicketGroup.group_name h)) eqn:Hle.
    + constructor; [exact Hs|]. constructor. exact Hle.
    + apply Sorted_inv in Hs as [Hs Hhd].
      constructor; [now apply IH|].
      assert (Hhg : name_le h g).
      { unfold name_le.
        destruct (String.leb_total (FlicketGroup.group_name g)
                    (FlicketGroup.group_name h)) as [Hc|Hc];
          [congruence | exact Hc]. }
      destruct gs as [|k gs]; simpl.
      * constructor. exact Hhg.
      * destruct (String.leb (FlicketGroup.group_name g)
                    (FlicketGroup.group_name k)); constructor;
          [exact Hhg | now apply HdRel_inv in Hhd].
Qed.

Lemma leb_iff (a b : string) :
  String.leb a b = true <-> a = b \/ OrderedTypeEx.String_as_OT.lt a b.
Proof.
  unfold String.leb.
  pose proof (OrderedTypeEx.String_as_OT.cmp_eq a b) as Heq.
  pose proof (OrderedTypeEx.String_as_OT.cmp_lt a b) as Hlt.
  pose proof (OrderedTypeEx.String_as_OT.cmp_antisym a b) as Hanti.
  pose proof (OrderedTypeEx.String_as_OT.cmp_lt b a) as Hgt.
  unfold OrderedTypeEx.String_as_OT.cmp in *.
  destruct (String.compare a b) eqn:Hc.
  - split; [intros _; left; now apply Heq | reflexivity].
  - split; [intros _; right; now apply Hlt | reflexivity].
  - split; [discriminate|]. intros [->|Hab].
    + assert (Gt = Eq) by now apply Heq. discriminate.
    + apply Hlt in Hab. discriminate.
Qed.

Lemma leb_trans (a b c : string) :
  String.leb a b = true -> String.leb b c = true -> String.leb a c = true.
Proof.
  rewrite !leb_iff. intros [->|Hab] [->|Hbc]; auto.
  right. now apply (OrderedTypeEx.String_as_OT.lt_trans a b c).
Qed.

Lemma name_le_trans : Transitive name_le.
Proof.
  intros g h k. unfold name_le. apply leb_trans.
Qed.

Lemma unique_from_StronglySorted (seen l : list FlicketGroup.t) :
  StronglySorted name_le l -> StronglySorted name_le (unique_from seen l).
Proof.
  revert seen. induction l as [|x l IH]; intros seen Hs; simpl;
    [constructor|].
  apply StronglySorted_inv in Hs as [Hs Hall].
  destruct (bool_decide (x ∈ seen)); [now apply IH|].
  constructor; [now apply IH|].
  rewrite Forall_forall in Hall |- *. intros y Hy. apply Hall.
  apply list_elem_of_In in Hy. apply unique_from_In in Hy as [Hy _].
  now apply list_elem_of_In.
Qed.

Lemma unique_from_NoDup {A} `{EqDecision A} (seen l : list A) :
  NoDup (unique_from seen l).
Proof.
  revert seen. induction l as [|x l IH]; intros seen; simpl; [constructor|].
  destruct (bool_decide (x ∈ seen)); [apply IH|].
  constructor; [|apply IH].
  rewrite list_elem_of_In, unique_from_In. intros [_ Hno]. apply Hno. now left.
Qed.

(** X15: the groups of a user come out in non-decreasing name order,
    each group once however many association rows join it, and they are
    exactly the groups the association table joins to the id of the
    user; an object without an id has no groups. *)
Theorem user_groups_ordered db user :
  Sorted name_le (FlicketUser.user_groups db user) /\
  NoDup (FlicketUser.user_groups db user) /\
  (forall uid g, FlicketUser.id user = Some uid ->
     (In g (FlicketUser.user_groups db user) <-> In g (joined_groups db uid))) /\
  (FlicketUser.id user = None -> FlicketUser.user_groups db user = []).
Proof.
  unfold FlicketUser.user_groups.
  destruct (FlicketUser.id user) as [uid|].
  - fold (joined_groups db uid). split; [|split; [|split; [|discriminate]]].
    + apply StronglySorted_Sorted, unique_from_StronglySorted.
      apply Sorted_StronglySorted; [apply name_le_trans|].
      unfold FlicketGroup.order_by_group_name.
      induction (joined_groups db uid) as [|g gs IH]; simpl;
        [constructor | now apply insert_by_name_Sorted].
    + apply unique_from_NoDup.
    + intros uid' g [= <-].
      now rewrite unique_list_In, order_by_group_name_In.
  - split; [constructor|]. split; [constructor|].
    split; [discriminate | reflexivity].
Qed.

(** A membership recorded twice joins the group twice and lists it
    once. *)
Example user_groups_joined_twice :
  let twice :=
    FlicketUser.mkDatabase [Samples.erin] [Samples.admins; Samples.staff]
      [(5, 10); (5, 11); (5, 10)] in
  joined_groups twice 5 = [Samples.admins; Samples.staff; Samples.admins] /\
  FlicketUser.user_groups twice Samples.erin
    = [Samples.admins; Samples.staff].
Proof. split; reflexivity. Qed.

Example user_groups_of_alice :
  FlicketUser.user_groups Samples.db Samples.alice
    = [Samples.admins; Samples.staff].
Proof. reflexivity. Qed.

(** ** Serialisation *)

(** X16: the [job_title] entry of [to_dict] is always a non-empty
    string: a consumer never sees a null or empty job title. *)
Theorem to_dict_job_title_nonempty url_for self :
  exists title,
    dict_get (FlicketUser.to_dict url_for self) "job_title"
      = Some (VStr title) /\ title <> "".
Proof.
  rewrite to_dict_job_title.
  destruct (FlicketUser.job_title self) as [j|]; simpl.
  - destruct (String.eqb_spec j "") as [->|Hne]; simpl.
    + now exists "unknown".
    + now exists j.
  - now exists "unknown".
Qed.

(** X17: [get_id] tells ids apart: two objects get the same text only if
    they have the same id (an object without an id gets ["None"], which
    no number prints as), and the text of a stored id parses back to
    that id. *)
Theorem get_id_faithful (u v : FlicketUser.t) :
  (FlicketUser.get_id u = FlicketUser.get_id v ->
   FlicketUser.id u = FlicketUser.id v) /\
  (forall z, FlicketUser.id u = Some z ->
     option_map Z.of_int (NilZero.int_of_string (FlicketUser.get_id u))
       = Some z) /\
  (FlicketUser.id u = None ->
   NilZero.int_of_string (FlicketUser.get_id u) = None).
Proof.
  assert (Hparse : forall z,
            option_map Z.of_int
              (NilZero.int_of_string (NilZero.string_of_int (Z.to_int z)))
              = Some z).
  { intros z. rewrite NilZero.isi.
    - simpl. f_equal. apply DecimalZ.of_to.
    - destruct z; simpl; try discriminate.
      intros [= Hnil]. now apply DecimalPos.Unsigned.to_uint_nonnil in Hnil.
    - destruct z; simpl; try discriminate.
      intros [= Hnil]. now apply DecimalPos.Unsigned.to_uint_nonnil in Hnil. }
  unfold FlicketUser.get_id. split; [|split].
  - destruct (FlicketUser.id u) as [a|], (FlicketUser.id v) as [b|];
      intros Heq; try reflexivity.
    + pose proof (Hparse a) as Ha. rewrite Heq, Hparse in Ha. congruence.
    + pose proof (Hparse a) as Ha. rewrite Heq in Ha. discriminate.
    + pose proof (Hparse b) as Hb. rewrite <- Heq in Hb. discriminate.
  - intros z ->. apply Hparse.
  - intros ->. reflexivity.
Qed.

Example get_id_of_alice : FlicketUser.get_id Samples.alice = "1".
Proof. reflexivity. Qed.
Example get_id_of_carol : FlicketUser.get_id Samples.carol = "None".
Proof. reflexivity. Qed.

(** ** Paginated collections in general *)

Section Collections.
Variable url_for : string -> gmap string PyVal -> string.
Context {A : Type} `{HasToDict A}.
Implicit Types (query : list A) (page per_page : Z).

Lemma paginate_in_range query page per_page :
  1 <= page -> 0 <= per_page ->
  paginate query page per_page
    = mkPagination page per_page (count query)
        (take (Z.to_nat per_page)
           (drop (Z.to_nat ((page - 1) * per_page)) query)).
Proof.
  intros Hpage Hper. unfold paginate.
  destruct (Z.ltb_spec page 1); [lia|].
  destruct (Z.ltb_spec per_page 0); [lia | reflexivity].
Qed.

Lemma pages_positive_size {B} (r : Pagination B) :
  0 < pg_per_page r ->
  pages r = (pg_total r + pg_per_page r - 1) / pg_per_page r.
Proof.
  intros Hper. unfold pages.
  destruct (Z.eqb_spec (pg_per_page r) 0); [lia | reflexivity].
Qed.

(** The entries of the result, read off for any input. *)
Lemma to_collection_dict_entries query page per_page endpoint kwargs :
  let data :=
    PaginatedAPIMixin.to_collection_dict url_for query page per_page
      endpoint kwargs in
  let resources := paginate query page per_page in
  let link p :=
    VStr (url_for endpoint (PaginatedAPIMixin.link_values p per_page kwargs)) in
  dict_items data = map item_to_dict (pg_items resources) /\
  dict_get2 data "_meta" "total_pages" = Some (VInt (pages resources)) /\
  dict_get2 data "_meta" "total_items" = Some (VInt (pg_total resources)) /\
  dict_get2 data "_links" "next"
    = Some (if has_next resources then link (page + 1) else VNone) /\
  dict_get2 data "_links" "prev"
    = Some (if has_prev resources then link (page - 1) else VNone).
Proof. repeat split. Qed.

Lemma ceil_div_le total per_page page :
  0 < per_page -> 0 <= total ->
  (total + per_page - 1) / per_page <= page <-> total <= page * per_page.
Proof.
  intros Hper Htotal.
  pose proof (Z.div_mod (total + per_page - 1) per_page) as Hdm.
  pose proof (Z.mod_pos_bound (total + per_page - 1) per_page Hper) as Hb.
  split; intros Hle; nia.
Qed.

(** X18: for a page number of at least 1 and a positive page size,
    [to_collection_dict] serialises the rows [(page - 1) * per_page]
    up to [page * per_page] of the query, in order and never more than
    [per_page] of them; reports the row count and its quotient by the
    page size rounded up; has no [next] exactly when no row lies beyond
    this page and no [prev] exactly on page 1; a link that is present
    names the adjacent page. *)
Theorem to_collection_dict_in_range query page per_page endpoint kwargs :
  1 <= page -> 0 < per_page ->
  let data :=
    PaginatedAPIMixin.to_collection_dict url_for query page per_page
      endpoint kwargs in
  let total := Z.of_nat (length query) in
  let link p :=
    VStr (url_for endpoint (PaginatedAPIMixin.link_values p per_page kwargs)) in
  dict_items data
    = map item_to_dict
        (take (Z.to_nat per_page)
           (drop (Z.to_nat ((page - 1) * per_page)) query)) /\
  Z.of_nat (length (dict_items data))
    = Z.max 0 (Z.min per_page (total - (page - 1) * per_page)) /\
  dict_get2 data "_meta" "total_items" = Some (VInt total) /\
  dict_get2 data "_meta" "total_pages"
    = Some (VInt ((total + per_page - 1) / per_page)) /\
  (dict_get2 data "_links" "next" = Some VNone <-> total <= page * per_page) /\
  (dict_get2 data "_links" "next" = Some (link (page + 1)) <->
   page * per_page < total) /\
  (dict_get2 data "_links" "prev" = Some VNone <-> page = 1) /\
  (dict_get2 data "_links" "prev" = Some (link (page - 1)) <-> 1 < page).
Proof.
  intros Hpage Hper data total link.
  destruct (to_collection_dict_entries query page per_page endpoint kwargs)
    as (Hitems & Hpages & Htotal & Hnext & Hprev).
  fold data in Hitems, Hpages, Htotal, Hnext, Hprev. fold link in Hnext, Hprev.
  rewrite paginate_in_range in Hitems, Hpages, Htotal, Hnext, Hprev by lia.
  rewrite pages_positive_size in Hpages by exact Hper.
  unfold has_next in Hnext. rewrite pages_positive_size in Hnext by exact Hper.
  unfold has_prev in Hprev. simpl in Hitems, Hpages, Htotal, Hnext, Hprev.
  unfold count in Hpages, Htotal, Hnext. fold total in Hpages, Htotal, Hnext.
  assert (Hceil : (total + per_page - 1) / per_page <= page
                  <-> total <= page * per_page)
    by (apply ceil_div_le; lia).
  split; [exact Hitems|]. split.
  { rewrite Hitems, length_map, length_take, length_drop. subst total. nia. }
  split; [exact Htotal|]. split; [exact Hpages|].
  rewrite Hnext, Hprev. clear Hnext Hprev.
  split; [|split; [|split]].
  - destruct (Z.ltb_spec page ((total + per_page - 1) / per_page)).
    + split; [discriminate | lia].
    + split; [lia | reflexivity].
  - destruct (Z.ltb_spec page ((total + per_page - 1) / per_page)).
    + split; [lia | reflexivity].
    + split; [discriminate | lia].
  - destruct (Z.ltb_spec 1 page).
    + split; [discriminate | lia].
    + split; [lia | reflexivity].
  - destruct (Z.ltb_spec 1 page).
    + split; [lia | reflexivity].
    + split; [discriminate | lia].
Qed.

(** X19: a page past the last row brings no error: the item list is
    empty and there is no [next]; [prev] is still populated, naming the
    page before the requested one. *)
Theorem to_collection_dict_past_the_end query page per_page endpoint kwargs :
  0 < per_page -> 1 < page ->
  Z.of_nat (length query) <= (page - 1) * per_page ->
  let data :=
    PaginatedAPIMixin.to_collection_dict url_for query page per_page
      endpoint kwargs in
  dict_items data = [] /\
  dict_get2 data "_meta" "page" = Some (VInt page) /\
  dict_get2 data "_links" "next" = Some VNone /\
  dict_get2 data "_links" "prev"
    = Some (VStr (url_for endpoint
                    (PaginatedAPIMixin.link_values (page - 1) per_page kwargs))).
Proof.
  intros Hper Hpage Hpast data.
  destruct (to_collection_dict_entries query page per_page endpoint kwargs)
    as (Hitems & _ & _ & Hnext & Hprev).
  fold data in Hitems, Hnext, Hprev.
  rewrite paginate_in_range in Hitems, Hnext, Hprev by lia.
  unfold has_next in Hnext. rewrite pages_positive_size in Hnext by exact Hper.
  unfold has_prev in Hprev. simpl in Hitems, Hnext, Hprev.
  split; [|split; [reflexivity|split]].
  - rewrite Hitems, drop_ge by lia. now rewrite take_nil.
  - rewrite Hnext.
    destruct (Z.ltb_spec page
                ((count query + per_page - 1) / per_page)) as [Hlt|];
      [|reflexivity].
    exfalso. unfold count in Hlt.
    assert (Hc : (Z.of_nat (length query) + per_page - 1) / per_page <= page).
    { apply ceil_div_le; nia. }
    lia.
  - rewrite Hprev. destruct (Z.ltb_spec 1 page); [reflexivity | lia].
Qed.

Lemma chunks_cover query (n k : nat) :
  flat_map (fun p : nat => take n (drop ((p - 1) * n) query)) (seq 1 k)
    = take (k * n) query.
Proof.
  induction k as [|k IH]; [reflexivity|].
  rewrite seq_S, flat_map_app, IH. simpl.
  rewrite app_nil_r. replace (k - 0)%nat with k by lia.
  rewrite take_take_drop. f_equal. lia.
Qed.

Lemma flat_map_map_chunks {B C} (f : B -> C) (g : nat -> list B) ps :
  flat_map (fun p => map f (g p)) ps = map f (flat_map g ps).
Proof.
  induction ps as [|p ps IH]; simpl; [reflexivity|].
  now rewrite IH, map_app.
Qed.

Lemma flat_map_agree {B C} (f g : B -> list C) ps :
  (forall p, In p ps -> f p = g p) -> flat_map f ps = flat_map g ps.
Proof.
  induction ps as [|p ps IH]; intros Hfg; simpl; [reflexivity|].
  rewrite (Hfg p) by now left.
  rewrite IH; [reflexivity|]. intros q Hq. apply Hfg. now right.
Qed.

(** X20: the pages partition the collection: for a positive page size,
    the item lists of pages 1 up to the reported number of pages, put one
    after the other, are the serialised rows of the whole query, each
    once and in query order. *)
Theorem to_collection_dict_pages_partition query per_page endpoint kwargs :
  0 < per_page ->
  let total_pages :=
    Z.to_nat ((Z.of_nat (length query) + per_page - 1) / per_page) in
  flat_map
    (fun p : nat =>
       dict_items
         (PaginatedAPIMixin.to_collection_dict url_for query (Z.of_nat p)
            per_page endpoint kwargs))
    (seq 1 total_pages)
  = map item_to_dict query.
Proof.
  intros Hper total_pages.
  rewrite (flat_map_agree _
             (fun p : nat =>
                map item_to_dict
                  (take (Z.to_nat per_page)
                     (drop ((p - 1) * Z.to_nat per_page) query)))).
  - rewrite flat_map_map_chunks, chunks_cover. f_equal.
    apply take_ge. subst total_pages.
    assert (Hc : Z.of_nat (length query)
                 <= (Z.of_nat (length query) + per_page - 1) / per_page
                    * per_page).
    { apply ceil_div_le; lia. }
    nia.
  - intros p Hp. apply in_seq in Hp.
    destruct (to_collection_dict_entries query (Z.of_nat p) per_page
                endpoint kwargs) as (Hitems & _).
    rewrite Hitems, paginate_in_range by lia. simpl.
    do 3 f_equal. nia.
Qed.
End Collections.

Lemma to_collection_dict_in_range_witness :
  let data :=
    PaginatedAPIMixin.to_collection_dict Samples.plain_url_for
      (H := FlicketUser.to_dict Samples.plain_url_for)
      Samples.query25 2 10 "bp_api_v2.get_users" ∅ in
  dict_get2 data "_links" "next"
    = Some (VStr (Samples.plain_url_for "bp_api_v2.get_users"
                    (PaginatedAPIMixin.link_values 3 10 ∅))).
Proof.
  assert (Hpage : 1 <= 2) by lia. assert (Hper : 0 < 10) by lia.
  destruct (to_collection_dict_in_range Samples.plain_url_for
              (H := FlicketUser.to_dict Samples.plain_url_for)
              Samples.query25 2 10 "bp_api_v2.get_users" ∅ Hpage Hper)
    as (_ & _ & _ & _ & _ & Hnext & _).
  apply Hnext. reflexivity.
Defined.

Lemma to_collection_dict_past_the_end_witness :
  dict_items
    (PaginatedAPIMixin.to_collection_dict Samples.plain_url_for
       (H := FlicketUser.to_dict Samples.plain_url_for)
       Samples.query25 4 10 "bp_api_v2.get_users" ∅) = [].
Proof.
  assert (Hper : 0 < 10) by lia. assert (Hpage : 1 < 4) by lia.
  assert (Hpast : Z.of_nat (length Samples.query25) <= (4 - 1) * 10)
    by (vm_compute; discriminate).
  apply (to_collection_dict_past_the_end Samples.plain_url_for
           (H := FlicketUser.to_dict Samples.plain_url_for)
           Samples.query25 4 10 "bp_api_v2.get_users" ∅ Hper Hpage Hpast).
Defined.

Lemma to_collection_dict_pages_partition_witness :
  flat_map
    (fun p : nat =>
       dict_items
         (PaginatedAPIMixin.to_collection_dict Samples.plain_url_for
            (H := FlicketUser.to_dict Samples.plain_url_for)
            Samples.query25 (Z.of_nat p) 10 "bp_api_v2.get_users" ∅))
    [1; 2; 3]%nat
  = map (FlicketUser.to_dict Samples.plain_url_for) Samples.query25.
Proof.
  assert (Hper : 0 < 10) by lia.
  exact (to_collection_dict_pages_partition Samples.plain_url_for
           (H := FlicketUser.to_dict Samples.plain_url_for)
           Samples.query25 10 "bp_api_v2.get_users" ∅ Hper).
Defined.

Lemma paginate_items_subset {A} (query : list A) page per_page x :
  In x (pg_items (paginate query page per_page)) -> In x query.
Proof.
  unfold paginate. simpl. rewrite <- !list_elem_of_In. intros Hin.
  eapply subseteq_drop, subseteq_take, Hin.
Qed.

(** X21: whatever the page and the page size, every item of a paginated
    collection of users is the [to_dict] of a row of the query and so
    carries exactly the seven keys of a serialised user: no password,
    token or expiration reaches a collection. *)
Theorem user_collection_items url_for query page per_page endpoint kwargs v :
  In v (dict_items
          (PaginatedAPIMixin.to_collection_dict url_for
             (H := FlicketUser.to_dict url_for)
             query page per_page endpoint kwargs)) ->
  exists u d,
    In u query /\ v = FlicketUser.to_dict url_for u /\ v = VDict d /\
    dom d = user_keys /\
    d !! "password" = None /\ d !! "token" = None /\
    d !! "token_expiration" = None.
Proof.
  intros Hin.
  destruct (to_collection_dict_entries url_for
              (H := FlicketUser.to_dict url_for)
              query page per_page endpoint kwargs) as (Hitems & _).
  rewrite Hitems in Hin. apply in_map_iff in Hin as (u & <- & Hu).
  apply paginate_items_subset in Hu.
  destruct (to_dict_keys url_for u) as (d & Hd & Hdom).
  exists u, d. split; [exact Hu|]. split; [reflexivity|].
  split; [exact Hd|]. split; [exact Hdom|].
  repeat split; apply not_elem_of_dom; rewrite Hdom;
    apply (bool_decide_unpack _); vm_compute; exact I.
Qed.

Lemma user_collection_items_witness :
  exists u d,
    In u Samples.query25 /\
    FlicketUser.to_dict Samples.plain_url_for (Samples.member 1) = VDict d /\
    d !! "password" = None.
Proof.
  assert (Hin : In (FlicketUser.to_dict Samples.plain_url_for (Samples.member 1))
            (dict_items
               (PaginatedAPIMixin.to_collection_dict Samples.plain_url_for
                  (H := FlicketUser.to_dict Samples.plain_url_for)
                  Samples.query25 1 10 "bp_api_v2.get_users" ∅)))
    by (left; reflexivity).
  destruct (user_collection_items Samples.plain_url_for Samples.query25 1 10
              "bp_api_v2.get_users" ∅ _ Hin)
    as (u & d & Hu & _ & Hd & _ & Hpw & _).
  exists u, d. repeat split; assumption.
Defined.

(** ** One user's token operations and the other users *)

Lemma filter_by_token_store (rows : list FlicketUser.t) i self self' tok :
  rows !! i = Some self ->
  FlicketUser.token self <> Some tok -> FlicketUser.token self' <> Some tok ->
  FlicketUser.filter_by_token tok (<[i := self']> rows)
    = FlicketUser.filter_by_token tok rows.
Proof.
  intros Hi Hold Hnew. unfold FlicketUser.filter_by_token. revert i Hi.
  induction rows as [|r rows IH]; intros [|i] Hi; try discriminate.
  - injection Hi as ->. cbn.
    now rewrite !bool_decide_eq_false_2 by assumption.
  - cbn. destruct (bool_decide _); [f_equal|]; apply (IH i Hi).
Qed.

(** X22: issuing or revoking the token of one stored user does not
    change what [check_token] answers for any token that this user
    neither held before nor holds after the operation, whenever the
    flush writes the object back. *)
Theorem token_operations_isolated db i self tok now :
  FlicketUser.flicket_users db !! i = Some self ->
  FlicketUser.token self <> Some tok ->
  (forall at_time stamp,
     FlicketUser.check_token
       (FlicketUser.store i (FlicketUser.revoke_token self at_time) stamp db)
       tok now
       = FlicketUser.check_token db tok now) /\
  (forall expires_in at_time rt r self' rt' stamp,
     FlicketUser.get_token self expires_in at_time rt = Ok (r, self', rt') ->
     r <> Some tok ->
     FlicketUser.check_token (FlicketUser.store i self' stamp db) tok now
       = FlicketUser.check_token db tok now).
Proof.
  intros Hi Hold.
  assert (Hany : forall self' stamp,
            FlicketUser.token self' <> Some tok ->
            FlicketUser.check_token (FlicketUser.store i self' stamp db) tok now
              = FlicketUser.check_token db tok now).
  { intros self' stamp Hnew. unfold FlicketUser.check_token.
    rewrite (store_users _ _ _ _ _ Hi).
    rewrite (filter_by_token_store _ _ _ _ _ Hi Hold); [reflexivity|].
    now rewrite written_token. }
  split.
  - intros at_time stamp. now apply Hany.
  - intros expires_in at_time rt r self' rt' stamp Hcall Hr. apply Hany.
    destruct (get_token_cases _ _ _ _ _ _ _ Hcall)
      as [(_ & _ & _ & -> & _)|(_ & e & _ & -> & -> & _)]; assumption.
Qed.

Lemma token_operations_isolated_witness :
  FlicketUser.check_token
    (FlicketUser.store 1 (FlicketUser.revoke_token Samples.bob Samples.t0)
       (Samples.t0 + 2) Samples.db)
    Samples.alice_token Samples.t0
  = FlicketUser.check_token Samples.db Samples.alice_token Samples.t0.
Proof.
  assert (Hold : FlicketUser.token Samples.bob <> Some Samples.alice_token)
    by discriminate.
  apply (token_operations_isolated Samples.db 1 Samples.bob
           Samples.alice_token Samples.t0 eq_refl Hold).
Defined.

(** ** Instances of the statements above on the sample data *)

Lemma get_token_raises_iff_witness :
  FlicketUser.get_token Samples.mallory 36000 Samples.t0 Samples.rt
    = Raise TypeError.
Proof.
  apply (get_token_raises_iff Samples.mallory 36000 Samples.t0 Samples.rt).
  split; reflexivity.
Defined.

Lemma check_password_raises_iff_witness :
  FlicketUser.check_password Samples.failing_hashpw Samples.db Samples.alice
    "wonderland" = Raise ValueError.
Proof.
  apply (check_password_raises_iff Samples.failing_hashpw Samples.db
           Samples.alice "wonderland" ValueError).
  exists Samples.alice. split; reflexivity.
Defined.

Lemma sample_rows_have_ids :
  forall row, In row (FlicketUser.flicket_users Samples.db) ->
              FlicketUser.id row <> None.
Proof.
  intros row Hrow. simpl in Hrow.
  repeat (destruct Hrow as [<-|Hrow]; [discriminate|]). destruct Hrow.
Qed.

Lemma is_admin_raises_iff_witness :
  FlicketUser.is_admin Samples.admin_name Samples.db Samples.carol
    = Raise AttributeError.
Proof.
  destruct (is_admin_raises_iff Samples.admin_name Samples.db Samples.carol)
    as (_ & _ & Hfresh).
  apply (Hfresh "carol" "Carol C." "carol@example.org" (encode_utf8 "s3cret")
           Samples.t0 None sample_rows_have_ids).
Defined.

Lemma get_id_faithful_witness :
  option_map Z.of_int (NilZero.int_of_string (FlicketUser.get_id Samples.alice))
    = Some 1.
Proof.
  destruct (get_id_faithful Samples.alice Samples.alice) as (_ & Hparse & _).
  apply Hparse. reflexivity.
Defined.
